(** * JsonToJackson: the structural-analysis core of [main.py]

    A shallow embedding of the functions that walk a decoded JSON document
    and infer a class model from it: the naming helpers [to_camel_case] and
    [to_pascal_case], the three ISO validators, [get_java_type] and
    [analyze_json_structure] with its inner [analyze_object]; and of the
    renderer [generate_java_class] with the root class name of [main].

    Python values are a closed inductive type, Python's ordered dictionaries
    are association lists with positional update, and every operation that
    can raise in Python returns in the exception monad [Py], so that
    "never raises" is a statement with content.  The dictionary [classes]
    that [analyze_object] mutates is threaded through the calls as the
    store.  Strings are byte strings; the case conversions are those of
    Python on ASCII text.  Integers and the recursion depth are unbounded,
    as for a document the interpreter can hold. *)

From Stdlib Require Import List String Ascii Bool Arith ZArith Lia Sorted.
Import ListNotations.
Open Scope string_scope.
Open Scope nat_scope.

Set Warnings "-register-all".

(** ** Exceptions *)

Inductive exn : Type :=
| TypeError
| ValueError
| IndexError
| KeyError
| AttributeError.

Inductive Py (A : Type) : Type :=
| Ok (a : A)
| Raise (e : exn).

Arguments Ok {A} a.
Arguments Raise {A} e.

Definition bind {A B : Type} (m : Py A) (k : A -> Py B) : Py B :=
  match m with
  | Ok a => k a
  | Raise e => Raise e
  end.

Notation "x <- m ;; k" := (bind m (fun x => k))
  (at level 61, m at next level, right associativity).

(** [try: ... except: return False; return True] *)
Definition succeeds {A : Type} (m : Py A) : bool :=
  match m with
  | Ok _ => true
  | Raise _ => false
  end.

(** [for x in l: body], threading the mutated store. *)
Definition for_each {A S : Type} (body : A -> S -> Py S) : list A -> S -> Py S :=
  fix loop (l : list A) (s : S) {struct l} : Py S :=
    match l with
    | [] => Ok s
    | x :: rest => s' <- body x s ;; loop rest s'
    end.

(** ** Python values

    What [json.load] hands over is built from [PNone], [PBool], [PInt],
    [PFloat], [PStr], [PList] and [PDict]; the functions are annotated
    [Any], and [POther] stands for any object of another type. *)

Inductive pyfloat : Type :=
| FFinite (mantissa exponent : Z)
| FInf (negative : bool)
| FNaN.

Inductive pyval : Type :=
| PNone
| PBool (b : bool)
| PInt (z : Z)
| PFloat (f : pyfloat)
| PStr (s : string)
| PList (l : list pyval)
| PDict (d : list (string * pyval))
| POther (type_name : string).

(** [isinstance(v, dict)], [isinstance(v, list)] and truthiness of containers *)
Definition is_dict (v : pyval) : bool :=
  match v with PDict _ => true | _ => false end.

Definition is_list (v : pyval) : bool :=
  match v with PList _ => true | _ => false end.

Definition nonempty (v : pyval) : bool :=
  match v with
  | PList (_ :: _) => true
  | PDict (_ :: _) => true
  | _ => false
  end.

(** ** ASCII case conversion and the string helpers *)

Definition is_upper (c : ascii) : bool :=
  (65 <=? nat_of_ascii c) && (nat_of_ascii c <=? 90).

Definition is_lower (c : ascii) : bool :=
  (97 <=? nat_of_ascii c) && (nat_of_ascii c <=? 122).

Definition upper (c : ascii) : ascii :=
  if is_lower c then ascii_of_nat (nat_of_ascii c - 32) else c.

Definition lower (c : ascii) : ascii :=
  if is_upper c then ascii_of_nat (nat_of_ascii c + 32) else c.

Fixpoint lower_all (s : string) : string :=
  match s with
  | EmptyString => EmptyString
  | String c r => String (lower c) (lower_all r)
  end.

(** [str.capitalize()] on ASCII text (on other text Python's conversion
    follows Unicode and can change the length) *)
Definition capitalize (s : string) : string :=
  match s with
  | EmptyString => EmptyString
  | String c r => String (upper c) (lower_all r)
  end.

(** [s.split('_')]: never the empty list *)
Fixpoint split_underscore (s : string) : list string :=
  match s with
  | EmptyString => [EmptyString]
  | String c r =>
      let parts := split_underscore r in
      if Ascii.eqb c "_"%char then EmptyString :: parts
      else match parts with
           | p :: ps => String c p :: ps
           | [] => [String c EmptyString]
           end
  end.

Definition join (l : list string) : string := String.concat EmptyString l.

(** [s.rstrip('s')] *)
Fixpoint rstrip_s (s : string) : string :=
  match s with
  | EmptyString => EmptyString
  | String c r =>
      let r' := rstrip_s r in
      if Ascii.eqb c "s"%char && String.eqb r' EmptyString then EmptyString
      else String c r'
  end.

Definition to_camel_case (snake_str : string) : string :=
  match split_underscore snake_str with
  | [] => EmptyString
  | first :: others => first ++ join (map capitalize others)
  end.

Definition to_pascal_case (snake_str : string) : string :=
  join (map capitalize (split_underscore snake_str)).

(** ** The ISO 8601 parsers of Python's [datetime] module

    [date.fromisoformat], [time.fromisoformat] and
    [datetime.fromisoformat] belong to the standard library, not to this
    program.  The program only observes whether a call returns or raises,
    so the library enters as three acceptance predicates on strings; a
    call with an argument that is not a [str] raises [TypeError]. *)

Class IsoFormats : Type := {
  date_iso : string -> bool;
  time_iso : string -> bool;
  datetime_iso : string -> bool
}.

Section Inference.

Context {L : IsoFormats}.

Definition fromisoformat (accepts : string -> bool) (value : pyval) : Py unit :=
  match value with
  | PStr s => if accepts s then Ok tt else Raise ValueError
  | _ => Raise TypeError
  end.

Definition date_valid (value : pyval) : bool :=
  succeeds (fromisoformat date_iso value).

Definition datetime_valid (value : pyval) : bool :=
  succeeds (fromisoformat datetime_iso value).

Definition time_valid (value : pyval) : bool :=
  succeeds (fromisoformat time_iso value).

(** [get_java_type(value, field_name="")]; the recursive call on the first
    element of a list is made without a field name, so with the default. *)
Fixpoint get_java_type (value : pyval) (field_name : string) {struct value}
  : Py string :=
  match value with
  | PNone => Ok "String"
  | _ =>
      if date_valid value then Ok "LocalDate"
      else if time_valid value then Ok "LocalTime"
      else if datetime_valid value then Ok "LocalDateTime"
      else
        match value with
        | PBool _ => Ok "Boolean"
        | PInt _ => Ok "Integer"
        | PFloat _ => Ok "Double"
        | PStr _ => Ok "String"
        | PList l =>
            match l with
            | [] => Ok "List<String>"
            | first_element :: _ =>
                if is_dict first_element then
                  let class_name := to_pascal_case (rstrip_s field_name) in
                  Ok ("List<" ++ class_name ++ ">")
                else
                  element_type <- get_java_type first_element EmptyString ;;
                  Ok ("List<" ++ element_type ++ ">")
            end
        | PDict _ => Ok (to_pascal_case field_name)
        | _ => Ok "String"
        end
  end.

End Inference.

(** ** Type descriptors

    The program represents an inferred type by the Java type expression it
    will print.  [TypeDescriptor] names the shapes; [render] gives the
    string the program uses for each. *)

Inductive PrimitiveKind : Type := KBoolean | KInteger | KDouble | KString.

Inductive TypeDescriptor : Type :=
| Primitive (kind : PrimitiveKind)
| TemporalDate
| TemporalTime
| TemporalDateTime
| ListOf (element : TypeDescriptor)
| ObjectRef (className : string).

Fixpoint render (t : TypeDescriptor) : string :=
  match t with
  | Primitive KBoolean => "Boolean"
  | Primitive KInteger => "Integer"
  | Primitive KDouble => "Double"
  | Primitive KString => "String"
  | TemporalDate => "LocalDate"
  | TemporalTime => "LocalTime"
  | TemporalDateTime => "LocalDateTime"
  | ListOf e => "List<" ++ render e ++ ">"
  | ObjectRef n => n
  end.

(** The branch of [get_java_type] that fires, as a descriptor. *)
Fixpoint infer {L : IsoFormats} (value : pyval) (field_name : string)
  {struct value} : TypeDescriptor :=
  match value with
  | PNone => Primitive KString
  | PBool _ => Primitive KBoolean
  | PInt _ => Primitive KInteger
  | PFloat _ => Primitive KDouble
  | PStr s =>
      if date_iso s then TemporalDate
      else if time_iso s then TemporalTime
      else if datetime_iso s then TemporalDateTime
      else Primitive KString
  | PList [] => ListOf (Primitive KString)
  | PList (first_element :: _) =>
      if is_dict first_element
      then ListOf (ObjectRef (to_pascal_case (rstrip_s field_name)))
      else ListOf (infer first_element EmptyString)
  | PDict _ => ObjectRef (to_pascal_case field_name)
  | POther _ => Primitive KString
  end.

(** ** Ordered dictionaries

    A Python [dict] keeps its keys unique and in insertion order; assigning
    to a key that is present replaces the value where it stands. *)

Section Dict.

Variable V : Type.

Definition dict : Type := list (string * V).

Fixpoint dict_get (k : string) (d : dict) : option V :=
  match d with
  | [] => None
  | (k', v) :: rest => if String.eqb k' k then Some v else dict_get k rest
  end.

(** [k in d] *)
Definition dict_mem (k : string) (d : dict) : bool :=
  match dict_get k d with
  | Some _ => true
  | None => false
  end.

(** [d[k]] *)
Definition getitem (k : string) (d : dict) : Py V :=
  match dict_get k d with
  | Some v => Ok v
  | None => Raise KeyError
  end.

(** [d[k] = v] *)
Fixpoint dict_set (k : string) (v : V) (d : dict) : dict :=
  match d with
  | [] => [(k, v)]
  | (k', v') :: rest =>
      if String.eqb k' k then (k, v) :: rest
      else (k', v') :: dict_set k v rest
  end.

Definition keys (d : dict) : list string := map fst d.

End Dict.

Arguments dict_get {V} k d.
Arguments dict_mem {V} k d.
Arguments getitem {V} k d.
Arguments dict_set {V} k v d.
Arguments keys {V} d.

(** ** The schema map built by the analysis *)

Record field_info : Type := {
  type : string;
  original_name : string
}.

Definition fields : Type := dict field_info.
Definition schema : Type := dict fields.

Section Analysis.

Context {L : IsoFormats}.

(** The inner function [analyze_object] of [analyze_json_structure]; the
    dictionary [classes] it closes over and mutates is threaded through.
    [obj.items()] raises on anything but a [dict]. *)
Fixpoint analyze_object (obj : pyval) (current_class_name : string)
  (classes : schema) {struct obj} : Py schema :=
  let classes :=
    if dict_mem current_class_name classes then classes
    else dict_set current_class_name [] classes in
  match obj with
  | PDict items =>
      for_each
        (fun (item : string * pyval) (classes : schema) =>
           let '(key, value) := item in
           let java_field_name := to_camel_case key in
           java_type <- get_java_type value key ;;
           class_fields <- getitem current_class_name classes ;;
           let classes :=
             dict_set current_class_name
               (dict_set java_field_name
                  {| type := java_type; original_name := key |}
                  class_fields)
               classes in
           match value with
           | PDict (_ :: _) =>
               let nested_class_name := to_pascal_case key in
               analyze_object value nested_class_name classes
           | PList (first_element :: others) =>
               if is_dict first_element then
                 let nested_class_name := to_pascal_case (rstrip_s key) in
                 classes <- analyze_object first_element nested_class_name classes ;;
                 for_each
                   (fun (item : pyval) (classes : schema) =>
                      if is_dict item
                      then analyze_object item nested_class_name classes
                      else Ok classes)
                   others classes
               else Ok classes
           | _ => Ok classes
           end)
        items classes
  | _ => Raise AttributeError
  end.

Definition analyze_json_structure (data : pyval) (class_name : string)
  : Py schema :=
  let classes : schema := [] in
  match data with
  | PDict _ => analyze_object data class_name classes
  | PList (first_element :: others) =>
      if is_dict first_element then
        classes <- analyze_object first_element class_name classes ;;
        for_each
          (fun (item : pyval) (classes : schema) =>
             if is_dict item
             then analyze_object item class_name classes
             else Ok classes)
          others classes
      else Ok classes
  | _ => Ok classes
  end.

End Analysis.

(** ** A model of the library's grammar

    The strict forms documented for the three parsers up to CPython 3.10,
    on ASCII text; it is used at sample strings only, on which every
    version of the library agrees with it:
    [YYYY-MM-DD], [HH[:MM[:SS[.fff[fff]]]][+HH:MM[:SS[.ffffff]]]] and a date
    optionally followed by one separator character and a time.  Field
    ranges are checked as the constructors of [date] and [time] do. *)

Module IsoGrammar.

Definition is_digit (c : ascii) : bool :=
  (48 <=? nat_of_ascii c) && (nat_of_ascii c <=? 57).

Definition digit_value (c : ascii) : nat := nat_of_ascii c - 48.

Fixpoint number (acc : nat) (l : list ascii) : option nat :=
  match l with
  | [] => Some acc
  | c :: rest =>
      if is_digit c then number (10 * acc + digit_value c) rest else None
  end.

Definition below (bound : nat) (l : list ascii) : bool :=
  match number 0 l with
  | Some n => n <? bound
  | None => false
  end.

Definition is_leap (year : nat) : bool :=
  (year mod 4 =? 0) && (negb (year mod 100 =? 0) || (year mod 400 =? 0)).

Definition days_in_month (year month : nat) : nat :=
  match month with
  | 2 => if is_leap year then 29 else 28
  | 4 | 6 | 9 | 11 => 30
  | _ => 31
  end.

Definition parse_date (l : list ascii) : bool :=
  match l with
  | [y1; y2; y3; y4; d1; m1; m2; d2; a1; a2] =>
      Ascii.eqb d1 "-"%char && Ascii.eqb d2 "-"%char &&
      match number 0 [y1; y2; y3; y4], number 0 [m1; m2], number 0 [a1; a2] with
      | Some y, Some m, Some d =>
          (1 <=? y) && (1 <=? m) && (m <=? 12) &&
          (1 <=? d) && (d <=? days_in_month y m)
      | _, _, _ => false
      end
  | _ => false
  end.

Definition parse_fraction (short_ok : bool) (l : list ascii) : bool :=
  match l with
  | [] => true
  | dot :: digits =>
      Ascii.eqb dot "."%char && forallb is_digit digits &&
      ((List.length digits =? 6) || (short_ok && (List.length digits =? 3)))
  end.

(** [HH[:MM[:SS[.fff[fff]]]]] *)
Definition parse_hh_mm_ss_ff (short_ok : bool) (l : list ascii) : bool :=
  match l with
  | [h1; h2] => below 24 [h1; h2]
  | [h1; h2; c1; m1; m2] =>
      below 24 [h1; h2] && Ascii.eqb c1 ":"%char && below 60 [m1; m2]
  | h1 :: h2 :: c1 :: m1 :: m2 :: c2 :: s1 :: s2 :: fraction =>
      below 24 [h1; h2] && Ascii.eqb c1 ":"%char && below 60 [m1; m2] &&
      Ascii.eqb c2 ":"%char && below 60 [s1; s2] &&
      parse_fraction short_ok fraction
  | _ => false
  end.

Definition is_sign (c : ascii) : bool :=
  Ascii.eqb c "+"%char || Ascii.eqb c "-"%char.

(** the text before the first sign, and the text after it when there is one *)
Fixpoint split_offset (l : list ascii) : list ascii * option (list ascii) :=
  match l with
  | [] => ([], None)
  | c :: rest =>
      if is_sign c then ([], Some rest)
      else let '(clock, offset) := split_offset rest in (c :: clock, offset)
  end.

Definition parse_time (l : list ascii) : bool :=
  let '(clock, offset) := split_offset l in
  parse_hh_mm_ss_ff true clock &&
  match offset with
  | None => true
  | Some o => (5 <=? List.length o) && parse_hh_mm_ss_ff false o
  end.

Definition parse_datetime (l : list ascii) : bool :=
  parse_date (firstn 10 l) &&
  match skipn 10 l with
  | [] => true
  | _separator :: clock => parse_time clock
  end.

End IsoGrammar.

#[export] Instance python_iso : IsoFormats := {|
  date_iso s := IsoGrammar.parse_date (list_ascii_of_string s);
  time_iso s := IsoGrammar.parse_time (list_ascii_of_string s);
  datetime_iso s := IsoGrammar.parse_datetime (list_ascii_of_string s)
|}.

(** ** The library's grammar from CPython 3.11 on

    From version 3.11 the three parsers also take the basic forms without
    separators, ISO week dates, a leading [T], any number of fraction
    digits and a trailing [Z].  [Iso311] follows the parsers of the C
    module of CPython 3.11 function by function, over the UTF-8 bytes of
    the string as that module reads them: a pointer is the list of bytes
    still ahead, and the byte past the end is the terminating NUL.  The
    range checks are those of the [date] and [time] constructors and of
    [timezone]. *)

Module Iso311.

Definition is_digit (c : ascii) : bool :=
  (48 <=? nat_of_ascii c) && (nat_of_ascii c <=? 57).

Definition digit_value (c : ascii) : nat := nat_of_ascii c - 48.

(** the byte at the pointer; past the end it is the terminating NUL *)
Definition peek (p : list ascii) : ascii := hd zero p.

(** [parse_digits(p, &var, num_digits)] *)
Fixpoint parse_digits (p : list ascii) (num_digits : nat) (var : nat)
  : option (list ascii * nat) :=
  match num_digits with
  | 0 => Some (p, var)
  | S n =>
      match p with
      | c :: rest =>
          if is_digit c then parse_digits rest n (10 * var + digit_value c)
          else None
      | [] => None
      end
  end.

Definition is_leap (year : nat) : bool :=
  (year mod 4 =? 0) && (negb (year mod 100 =? 0) || (year mod 400 =? 0)).

Definition days_in_month (year month : nat) : nat :=
  match month with
  | 2 => if is_leap year then 29 else 28
  | 4 | 6 | 9 | 11 => 30
  | _ => 31
  end.










(** result of [parse_hh_mm_ss_ff]: [None] for a negative return code,
    otherwise whether text is left, and the fields *)
Record hmsf : Type := {
  left_over : bool;
  hour : nat; minute : nat; second : nat
}.

(** the loop over hours, minutes and seconds; [n] is [p_end - p].
    Returns [inl] for a final answer and [inr p, n, fields] when the
    fraction is to be parsed. *)
Fixpoint hms_loop (i : nat) (steps : nat) (p : list ascii) (n : Z)
  (has_separator : bool) (vals : list nat)
  : option (hmsf + (list ascii * Z * list nat)) :=
  match steps with
  | 0 => Some (inr (p, n, vals))
  | S steps' =>
      match parse_digits p 2 0 with
      | None => None
      | Some (p, v) =>
          let vals := (vals ++ [v])%list in
          let c := peek p in
          let p := tl p in
          let n := (n - 3)%Z in
          let has_separator := if i =? 0 then Ascii.eqb c ":"%char else has_separator in
          if (n <=? 0)%Z then
            Some (inl {| left_over := negb (Ascii.eqb c zero);
                         hour := nth 0 vals 0; minute := nth 1 vals 0;
                         second := nth 2 vals 0 |})
          else if has_separator && Ascii.eqb c ":"%char then
            hms_loop (S i) steps' p n has_separator vals
          else if Ascii.eqb c "."%char || Ascii.eqb c ","%char then
            Some (inr (p, n, vals))
          else if negb has_separator then
            hms_loop (S i) steps' (c :: p) (n + 1)%Z has_separator vals
          else None
      end
  end.

Fixpoint skip_digits (p : list ascii) : list ascii :=
  match p with
  | c :: rest => if is_digit c then skip_digits rest else p
  | [] => []
  end.

Definition parse_hh_mm_ss_ff (tstr : list ascii) (n : Z) : option hmsf :=
  match hms_loop 0 3 tstr n true [] with
  | None => None
  | Some (inl r) => Some r
  | Some (inr (p, n, vals)) =>
      let to_parse := if (6 <=? n)%Z then 6 else Z.to_nat n in
      match parse_digits p to_parse 0 with
      | None => None
      | Some (p, _) =>
          let p := skip_digits p in
          Some {| left_over := negb (Ascii.eqb (peek p) zero);
                  hour := nth 0 vals 0; minute := nth 1 vals 0;
                  second := nth 2 vals 0 |}
      end
  end.











End Iso311.


(** ** The walk as a sequence of store operations

    [analyze_object] does two things to [classes]: on entry it makes sure
    the class has an entry, and for each field it stores a descriptor.
    [trace_object] lists these operations in program order, and [run]
    performs them. *)

Inductive event : Type :=
| Enter (class_name : string)
| Field (class_name key : string) (value : pyval).

Definition trace_elements (trace_of : pyval -> list event) (l : list pyval)
  : list event :=
  flat_map (fun item => if is_dict item then trace_of item else []) l.

Fixpoint trace_object (obj : pyval) (current_class_name : string)
  {struct obj} : list event :=
  match obj with
  | PDict items =>
      Enter current_class_name ::
      flat_map
        (fun item : string * pyval =>
           let '(key, value) := item in
           Field current_class_name key value ::
           match value with
           | PDict (_ :: _) => trace_object value (to_pascal_case key)
           | PList (first_element :: others) =>
               if is_dict first_element then
                 trace_elements
                   (fun item => trace_object item (to_pascal_case (rstrip_s key)))
                   (first_element :: others)
               else []
           | _ => []
           end)
        items
  | _ => []
  end.

Definition trace_json (data : pyval) (class_name : string) : list event :=
  match data with
  | PDict _ => trace_object data class_name
  | PList (first_element :: others) =>
      if is_dict first_element then
        trace_elements (fun item => trace_object item class_name)
          (first_element :: others)
      else []
  | _ => []
  end.

Definition ensure_class (c : string) (classes : schema) : schema :=
  if dict_mem c classes then classes else dict_set c [] classes.

Definition put_field (c f : string) (info : field_info) (classes : schema)
  : Py schema :=
  class_fields <- getitem c classes ;;
  Ok (dict_set c (dict_set f info class_fields) classes).

Section Replay.

Context {L : IsoFormats}.

Definition apply_event (e : event) (classes : schema) : Py schema :=
  match e with
  | Enter c => Ok (ensure_class c classes)
  | Field c key value =>
      java_type <- get_java_type value key ;;
      put_field c (to_camel_case key)
        {| type := java_type; original_name := key |} classes
  end.

Definition run : list event -> schema -> Py schema := for_each apply_event.

(** on a dictionary, the walk and its trace agree from every store *)
Definition traced (v : pyval) : Prop :=
  forall name s,
    is_dict v = true -> analyze_object v name s = run (trace_object v name) s.

Definition traced_deep (v : pyval) : Prop :=
  traced v /\ forall l, v = PList l -> Forall traced l.

End Replay.

(** the descriptor stored for field [f] of class [c] *)
Definition lookup (c f : string) (classes : schema) : option field_info :=
  match dict_get c classes with
  | Some class_fields => dict_get f class_fields
  | None => None
  end.

(** the descriptor the walk stores for a field *)
Definition stored {L : IsoFormats} (key : string) (value : pyval) : field_info :=
  {| type := render (infer value key); original_name := key |}.

(** unique class names, and unique field names within each class *)
Definition wf_schema (classes : schema) : Prop :=
  NoDup (keys classes) /\
  forall c class_fields, In (c, class_fields) classes -> NoDup (keys class_fields).

(** does the event write field [f] of class [c]? *)
Definition writes (c f : string) (e : event) : bool :=
  match e with
  | Enter _ => false
  | Field c' key _ => String.eqb c' c && String.eqb (to_camel_case key) f
  end.

(** the key and value of the last write to field [f] of class [c] *)
Fixpoint last_visit (c f : string) (t : list event) : option (string * pyval) :=
  match t with
  | [] => None
  | e :: rest =>
      match last_visit c f rest with
      | Some kv => Some kv
      | None =>
          match e with
          | Field c' key value =>
              if writes c f e then Some (key, value) else None
          | Enter _ => None
          end
      end
  end.

(** every write goes to a class that is known or was entered before *)
Fixpoint closed (known : list string) (t : list event) : bool :=
  match t with
  | [] => true
  | Enter c :: rest => closed (c :: known) rest
  | Field c _ _ :: rest => existsb (String.eqb c) known && closed known rest
  end.



(** values for which [get_java_type] reads its field name *)
Definition hint_sensitive (v : pyval) : bool :=
  match v with
  | PDict _ => true
  | PList (PDict _ :: _) => true
  | _ => false
  end.

(** the class names a descriptor refers to *)
Fixpoint class_refs (t : TypeDescriptor) : list string :=
  match t with
  | ObjectRef n => [n]
  | ListOf e => class_refs e
  | _ => []
  end.

(** ** Characters of a string, and the root class name

    [main] derives the root class name from the stem of the input file name:
    [to_pascal_case(stem.replace('-', '_').replace(' ', '_'))]. *)

Fixpoint occurs (c : ascii) (s : string) : bool :=
  match s with
  | EmptyString => false
  | String a r => Ascii.eqb a c || occurs c r
  end.

Fixpoint count_char (c : ascii) (s : string) : nat :=
  match s with
  | EmptyString => 0
  | String a r => (if Ascii.eqb a c then 1 else 0) + count_char c r
  end.

Definition is_letter (c : ascii) : bool := is_upper c || is_lower c.

(** [s.isascii()] *)
Fixpoint isascii (s : string) : bool :=
  match s with
  | EmptyString => true
  | String a r => (nat_of_ascii a <? 128) && isascii r
  end.

(** [s.replace(old, new)] for one-character [old] and [new] *)
Fixpoint replace_char (old new : ascii) (s : string) : string :=
  match s with
  | EmptyString => EmptyString
  | String a r =>
      String (if Ascii.eqb a old then new else a) (replace_char old new r)
  end.

Definition root_class_name (stem : string) : string :=
  to_pascal_case
    (replace_char " "%char "_"%char (replace_char "-"%char "_"%char stem)).

(** ** The renderer: [generate_java_class]

    The set [imports] is a list without repetition; [sorted] orders it by
    code points.  The text is built by appending, as the source does.
    [access_modifier] is [None] when no policy was given; like [None], the
    empty string is false in [if access_modifier:]. *)

Definition nl : string := String "010"%char EmptyString.
Definition dquote : string := String "034"%char EmptyString.

(** [imports.add(x)] *)
Definition set_add (x : string) (imports : list string) : list string :=
  if existsb (String.eqb x) imports then imports else (imports ++ [x])%list.

Fixpoint insert_sorted (x : string) (l : list string) : list string :=
  match l with
  | [] => [x]
  | y :: rest =>
      if String.leb x y then x :: y :: rest else y :: insert_sorted x rest
  end.

(** [sorted(imports)] *)
Definition sorted (l : list string) : list string :=
  fold_right insert_sorted [] l.

Definition import_list : string := "import java.util.List;".
Definition import_date : string := "import java.time.LocalDate;".
Definition import_time : string := "import java.time.LocalTime;".
Definition import_datetime : string := "import java.time.LocalDateTime;".
Definition import_json_property : string :=
  "import com.fasterxml.jackson.annotation.JsonProperty;".

(** the body of the loop that determines the necessary imports *)
Definition field_imports (imports : list string) (info : field_info)
  : list string :=
  let field_type := type info in
  let imports :=
    if String.prefix "List<" field_type then set_add import_list imports
    else imports in
  let imports :=
    if String.eqb "LocalDate" field_type then set_add import_date imports
    else imports in
  let imports :=
    if String.eqb "LocalTime" field_type then set_add import_time imports
    else imports in
  if String.eqb "LocalDateTime" field_type then set_add import_datetime imports
  else imports.

Definition collect_imports (class_fields : fields) : list string :=
  set_add import_json_property
    (fold_left (fun imports item => field_imports imports (snd item))
       class_fields []).

(** the text one iteration of the field loop appends *)
Definition field_declaration (access_modifier : option string)
  (java_field_name : string) (info : field_info) : string :=
  let field_type := type info in
  let original_name := original_name info in
  let code := EmptyString in
  let code :=
    match access_modifier with
    | Some (String _ _ as modifier) =>
        code ++ "    @JsonProperty(access = JsonProperty.Access."
             ++ modifier ++ ", value = " ++ dquote
             ++ original_name ++ dquote ++ ")" ++ nl
    | _ =>
        code ++ "    @JsonProperty(value = " ++ dquote ++ original_name
             ++ dquote ++ ")" ++ nl
    end in
  code ++ "    private " ++ field_type ++ " " ++ java_field_name ++ ";" ++ nl ++ nl.

Definition getter (java_field_name : string) (info : field_info) : string :=
  let field_type := type info in
  let capitalized_field := capitalize java_field_name in
  ("    public " ++ field_type ++ " get" ++ capitalized_field ++ "() {" ++ nl)
  ++ ("        return " ++ java_field_name ++ ";" ++ nl)
  ++ ("    }" ++ nl ++ nl).

Definition setter (java_field_name : string) (info : field_info) : string :=
  let field_type := type info in
  let capitalized_field := capitalize java_field_name in
  ("    public void set" ++ capitalized_field ++ "(" ++ field_type ++ " "
     ++ java_field_name ++ ") {" ++ nl)
  ++ ("        this." ++ java_field_name ++ " = " ++ java_field_name ++ ";" ++ nl)
  ++ ("    }" ++ nl ++ nl).

(** the text one iteration of the accessor loop appends *)
Definition accessors (generate_getters generate_setters : bool)
  (java_field_name : string) (info : field_info) : string :=
  let code := EmptyString in
  let code :=
    if generate_getters then code ++ getter java_field_name info else code in
  if generate_setters then code ++ setter java_field_name info else code.

Definition generate_java_class (class_name : string) (class_fields : fields)
  (access_modifier : option string) (package_name : string)
  (generate_getters generate_setters : bool) : string :=
  let imports := collect_imports class_fields in
  let code := "package " ++ package_name ++ ";" ++ nl ++ nl in
  let code :=
    fold_left (fun code imp => code ++ (imp ++ nl)) (sorted imports) code in
  let code := code ++ (nl ++ "/**" ++ nl) in
  let code :=
    code ++ (" * This class is generated by the JSON to Java Class Generator."
             ++ nl) in
  let code := code ++ (" */" ++ nl) in
  let code := code ++ ("public class " ++ class_name ++ " {" ++ nl) in
  let code :=
    fold_left
      (fun code item =>
         code ++ field_declaration access_modifier (fst item) (snd item))
      class_fields code in
  let code :=
    if generate_getters || generate_setters then
      fold_left
        (fun code item =>
           code ++ accessors generate_getters generate_setters
                     (fst item) (snd item))
        class_fields code
    else code in
  code ++ ("}" ++ nl).

(** the field asks for the import line [y] *)
Definition triggers (info : field_info) (y : string) : Prop :=
  (y = import_list /\ String.prefix "List<" (type info) = true) \/
  (y = import_date /\ type info = "LocalDate") \/
  (y = import_time /\ type info = "LocalTime") \/
  (y = import_datetime /\ type info = "LocalDateTime").

(** [piece] occurs in [text] *)
Definition contains (piece text : string) : Prop :=
  exists before after, text = before ++ piece ++ after.

(** ** Induction over Python values, through lists and dictionaries *)

Section PyvalInduction.

Variable P : pyval -> Prop.

Hypothesis P_none : P PNone.
Hypothesis P_bool : forall b, P (PBool b).
Hypothesis P_int : forall z, P (PInt z).
Hypothesis P_float : forall f, P (PFloat f).
Hypothesis P_str : forall s, P (PStr s).
Hypothesis P_list : forall l, Forall P l -> P (PList l).
Hypothesis P_dict : forall d, Forall (fun kv => P (snd kv)) d -> P (PDict d).
Hypothesis P_other : forall n, P (POther n).

Fixpoint pyval_nested_ind (v : pyval) : P v :=
  match v with
  | PNone => P_none
  | PBool b => P_bool b
  | PInt z => P_int z
  | PFloat f => P_float f
  | PStr s => P_str s
  | PList l =>
      P_list l
        ((fix all (l : list pyval) : Forall P l :=
            match l with
            | [] => Forall_nil P
            | x :: r => Forall_cons x (pyval_nested_ind x) (all r)
            end) l)
  | PDict d =>
      P_dict d
        ((fix all (d : list (string * pyval))
            : Forall (fun kv => P (snd kv)) d :=
            match d with
            | [] => Forall_nil _
            | kv :: r =>
                Forall_cons kv (pyval_nested_ind (snd kv)) (all r)
            end) d)
  | POther n => P_other n
  end.

End PyvalInduction.

(** * Properties *)

(** ** The exception monad and loops *)

Lemma bind_ok_inv (A B : Type) (m : Py A) (k : A -> Py B) (b : B) :
  bind m k = Ok b -> exists a, m = Ok a /\ k a = Ok b.
Proof.
  destruct m as [a | e]; simpl; intro H.
  - exists a; split; [reflexivity | exact H].
  - discriminate H.
Qed.

Lemma for_each_app (A S : Type) (body : A -> S -> Py S) (l1 l2 : list A) (s : S) :
  for_each body (l1 ++ l2) s = bind (for_each body l1 s) (for_each body l2).
Proof.
  revert s; induction l1 as [| x r IH]; intro s; simpl.
  - reflexivity.
  - destruct (body x s) as [s' | e]; simpl; [apply IH | reflexivity].
Qed.

Lemma for_each_flat_map (A B S : Type) (body : A -> S -> Py S)
  (step : B -> S -> Py S) (g : A -> list B) (l : list A) :
  (forall x s, In x l -> body x s = for_each step (g x) s) ->
  forall s, for_each body l s = for_each step (flat_map g l) s.
Proof.
  induction l as [| x r IH]; intros Hx s; simpl.
  - reflexivity.
  - rewrite for_each_app, (Hx x s (or_introl eq_refl)).
    destruct (for_each step (g x) s) as [s' | e]; simpl; [| reflexivity].
    apply IH; intros y s0 Hy; apply Hx; right; exact Hy.
Qed.

(** ** The type inferencer returns the rendering of the branch that fires *)

Lemma fromisoformat_not_str (accepts : string -> bool) (v : pyval) :
  (forall s, v <> PStr s) -> succeeds (fromisoformat accepts v) = false.
Proof.
  destruct v; intro H; try reflexivity.
  exfalso; apply (H s); reflexivity.
Qed.

Lemma get_java_type_infer {L : IsoFormats} (value : pyval) :
  forall field_name,
    get_java_type value field_name = Ok (render (infer value field_name)).
Proof.
  induction value using pyval_nested_ind; intro field_name;
    try reflexivity.
  - (* str *)
    simpl. unfold date_valid, time_valid, datetime_valid; simpl.
    destruct (date_iso s); [reflexivity |].
    destruct (time_iso s); [reflexivity |].
    destruct (datetime_iso s); reflexivity.
  - (* list *)
    destruct l as [| first_element rest]; [reflexivity |].
    simpl.
    destruct (is_dict first_element); [reflexivity |].
    inversion H as [| x r Hfirst Hrest]; subst.
    rewrite (Hfirst EmptyString); reflexivity.
Qed.

(** ** Dictionaries *)

Section DictFacts.

Variable V : Type.
Implicit Types (d : dict V) (k : string) (v : V).

Lemma dict_get_set_same d k v : dict_get k (dict_set k v d) = Some v.
Proof.
  induction d as [| [k' v'] r IH]; simpl.
  - rewrite String.eqb_refl; reflexivity.
  - destruct (String.eqb k' k) eqn:E; simpl.
    + rewrite String.eqb_refl; reflexivity.
    + rewrite E; exact IH.
Qed.

Lemma dict_get_set_other d k k0 v :
  k0 <> k -> dict_get k0 (dict_set k v d) = dict_get k0 d.
Proof.
  intro Hne; induction d as [| [k' v'] r IH]; simpl.
  - destruct (String.eqb k k0) eqn:E; [| reflexivity].
    apply String.eqb_eq in E; congruence.
  - destruct (String.eqb k' k) eqn:E; simpl.
    + apply String.eqb_eq in E; subst k'.
      destruct (String.eqb k k0) eqn:E0; [| reflexivity].
      apply String.eqb_eq in E0; congruence.
    + destruct (String.eqb k' k0); [reflexivity | exact IH].
Qed.

Lemma dict_get_set d k k0 v :
  dict_get k0 (dict_set k v d) =
  if String.eqb k k0 then Some v else dict_get k0 d.
Proof.
  destruct (String.eqb k k0) eqn:E.
  - apply String.eqb_eq in E; subst; apply dict_get_set_same.
  - apply String.eqb_neq in E; apply dict_get_set_other; congruence.
Qed.

Lemma dict_get_in_keys d k v : dict_get k d = Some v -> In k (keys d).
Proof.
  induction d as [| [k' v'] r IH]; simpl; [discriminate |].
  destruct (String.eqb k' k) eqn:E.
  - apply String.eqb_eq in E; intros _; left; exact E.
  - intro H; right; apply IH; exact H.
Qed.

Lemma dict_get_none_keys d k : dict_get k d = None -> ~ In k (keys d).
Proof.
  induction d as [| [k' v'] r IH]; simpl; [tauto |].
  destruct (String.eqb k' k) eqn:E; [discriminate |].
  apply String.eqb_neq in E; intros H [Hk | Hk]; [congruence | exact (IH H Hk)].
Qed.

Lemma keys_dict_set_present d k v v0 :
  dict_get k d = Some v0 -> keys (dict_set k v d) = keys d.
Proof.
  unfold keys; induction d as [| [k' v'] r IH]; simpl; [discriminate |].
  destruct (String.eqb k' k) eqn:E; simpl.
  - apply String.eqb_eq in E; subst; reflexivity.
  - intro H; rewrite (IH H); reflexivity.
Qed.

Lemma keys_dict_set_absent d k v :
  dict_get k d = None -> keys (dict_set k v d) = (keys d ++ [k])%list.
Proof.
  unfold keys; induction d as [| [k' v'] r IH]; simpl; [reflexivity |].
  destruct (String.eqb k' k) eqn:E; simpl; [discriminate |].
  intro H; rewrite (IH H); reflexivity.
Qed.

Lemma NoDup_keys_dict_set d k v : NoDup (keys d) -> NoDup (keys (dict_set k v d)).
Proof.
  intro Hd; destruct (dict_get k d) as [v0 |] eqn:E.
  - erewrite keys_dict_set_present by eassumption; exact Hd.
  - rewrite keys_dict_set_absent by assumption.
    apply NoDup_app; [exact Hd | repeat constructor; simpl; tauto |].
    intros x Hx [Hk | []]; subst x.
    exact (dict_get_none_keys _ _ E Hx).
Qed.

Lemma in_dict_set d k v k0 v0 :
  In (k0, v0) (dict_set k v d) -> (k0 = k /\ v0 = v) \/ In (k0, v0) d.
Proof.
  induction d as [| [k' v'] r IH]; simpl.
  - intros [H | []]; inversion H; auto.
  - destruct (String.eqb k' k); simpl.
    + intros [H | H]; [inversion H; auto | auto].
    + intros [H | H]; [auto |].
      destruct (IH H); auto.
Qed.

End DictFacts.

(** ** The walk performs exactly its trace *)

Section TraceFacts.

Context {L : IsoFormats}.

Lemma run_app (t1 t2 : list event) (s : schema) :
  run (t1 ++ t2) s = bind (run t1 s) (run t2).
Proof. apply for_each_app. Qed.

Lemma elements_run (l : list pyval) (n : string) :
  Forall traced l ->
  forall s,
    for_each
      (fun (item : pyval) (classes : schema) =>
         if is_dict item then analyze_object item n classes else Ok classes)
      l s
    = run (trace_elements (fun item => trace_object item n) l) s.
Proof.
  intros Hl s. unfold trace_elements, run.
  apply for_each_flat_map.
  intros x s0 Hx.
  destruct (is_dict x) eqn:E; [| reflexivity].
  rewrite Forall_forall in Hl. exact (Hl x Hx n s0 E).
Qed.

Lemma nested_run (key : string) (value : pyval) (s : schema) :
  traced_deep value ->
  match value with
  | PDict (_ :: _) => analyze_object value (to_pascal_case key) s
  | PList (first_element :: others) =>
      if is_dict first_element then
        classes <- analyze_object first_element (to_pascal_case (rstrip_s key)) s ;;
        for_each
          (fun (item : pyval) (classes : schema) =>
             if is_dict item
             then analyze_object item (to_pascal_case (rstrip_s key)) classes
             else Ok classes)
          others classes
      else Ok s
  | _ => Ok s
  end
  = run
      match value with
      | PDict (_ :: _) => trace_object value (to_pascal_case key)
      | PList (first_element :: others) =>
          if is_dict first_element then
            trace_elements
              (fun item => trace_object item (to_pascal_case (rstrip_s key)))
              (first_element :: others)
          else []
      | _ => []
      end
      s.
Proof.
  intros [Hv Hl].
  destruct value as [| | | | | l | d |]; try reflexivity.
  - destruct l as [| first_element others]; [reflexivity |].
    specialize (Hl _ eq_refl). inversion Hl as [| x r Hfirst Hothers]; subst.
    destruct (is_dict first_element) eqn:E; [| reflexivity].
    unfold trace_elements; simpl flat_map; rewrite E, run_app.
    rewrite (Hfirst _ s E).
    destruct (run (trace_object first_element (to_pascal_case (rstrip_s key))) s)
      as [s' | e]; simpl; [| reflexivity].
    apply elements_run; exact Hothers.
  - destruct d as [| kv d']; [reflexivity |].
    apply Hv; reflexivity.
Qed.

Lemma traced_deep_all (v : pyval) : traced_deep v.
Proof.
  induction v using pyval_nested_ind;
    try (split; [intros name s0 Hd; discriminate Hd | intros l0 Hl; discriminate Hl]).
  - (* list *)
    split; [intros name s0 Hd; discriminate Hd |].
    intros l0 Hl; injection Hl as <-.
    eapply Forall_impl; [| exact H]. intros a [Ha _]; exact Ha.
  - (* dict *)
    split; [| intros l0 Hl; discriminate Hl].
    intros name s _.
    cbn [analyze_object trace_object].
    change (run (Enter name :: ?t) s) with
      (bind (apply_event (Enter name) s) (run t)).
    cbn [apply_event bind]. unfold ensure_class.
    generalize (if dict_mem name s then s else dict_set name [] s) as s0.
    intro s0; revert s0. unfold run.
    apply for_each_flat_map.
    intros [key value] s0 Hin.
    rewrite Forall_forall in H. specialize (H _ Hin); simpl in H.
    cbn [for_each apply_event]. rewrite get_java_type_infer; cbn [bind].
    unfold put_field.
    destruct (getitem name s0) as [class_fields | e]; cbn [bind]; [| reflexivity].
    apply (nested_run key value _ H).
Qed.

Lemma analyze_object_run (items : list (string * pyval)) (name : string)
  (s : schema) :
  analyze_object (PDict items) name s = run (trace_object (PDict items) name) s.
Proof. apply traced_deep_all; reflexivity. Qed.

Lemma analyze_json_structure_run (data : pyval) (class_name : string) :
  analyze_json_structure data class_name = run (trace_json data class_name) [].
Proof.
  destruct data as [| | | | | l | d |]; try reflexivity.
  - destruct l as [| first_element others]; [reflexivity |].
    unfold analyze_json_structure, trace_json.
    destruct (is_dict first_element) eqn:E; [| reflexivity].
    unfold trace_elements; simpl flat_map; rewrite E, run_app.
    rewrite (proj1 (traced_deep_all first_element) _ _ E).
    destruct (run (trace_object first_element class_name) []) as [s' | e];
      simpl; [| reflexivity].
    apply elements_run.
    rewrite Forall_forall; intros x _; apply traced_deep_all.
  - apply analyze_object_run.
Qed.

End TraceFacts.

(** ** Every write of a walk goes to a class entered before *)

Lemma dict_walk_ind (P : pyval -> Prop) :
  (forall v, is_dict v = false -> P v) ->
  (forall d,
      Forall (fun kv : string * pyval =>
                P (snd kv) /\ forall l, snd kv = PList l -> Forall P l) d ->
      P (PDict d)) ->
  forall v, P v.
Proof.
  intros Hleaf Hdict.
  assert (Hdeep : forall v, P v /\ forall l, v = PList l -> Forall P l).
  { induction v using pyval_nested_ind;
      try (split; [apply Hleaf; reflexivity | intros l0 Hl; discriminate Hl]).
    - split; [apply Hleaf; reflexivity |].
      intros l0 Hl; injection Hl as <-.
      eapply Forall_impl; [| exact H]. intros a [Ha _]; exact Ha.
    - split; [apply Hdict; exact H | intros l0 Hl; discriminate Hl]. }
  intro v; apply Hdeep.
Qed.

Lemma existsb_eqb_in (c : string) (known : list string) :
  existsb (String.eqb c) known = true <-> In c known.
Proof.
  rewrite existsb_exists; split.
  - intros [x [Hx E]]; apply String.eqb_eq in E; subst; exact Hx.
  - intro H; exists c; split; [exact H | apply String.eqb_refl].
Qed.

Lemma closed_weaken (t : list event) :
  forall known known',
    incl known known' -> closed known t = true -> closed known' t = true.
Proof.
  induction t as [| [c | c key value] r IH]; intros known known' Hi; simpl.
  - reflexivity.
  - apply IH. intros x [Hx | Hx]; [left; exact Hx | right; apply Hi; exact Hx].
  - rewrite !andb_true_iff, !existsb_eqb_in.
    intros [Hc Hr]; split; [apply Hi; exact Hc | exact (IH _ _ Hi Hr)].
Qed.

Lemma closed_app (t1 t2 : list event) :
  forall known,
    closed known t1 = true ->
    (forall known', incl known known' -> closed known' t2 = true) ->
    closed known (t1 ++ t2) = true.
Proof.
  induction t1 as [| [c | c key value] r IH]; intros known H1 H2; simpl in *.
  - apply H2; apply incl_refl.
  - apply IH; [exact H1 |].
    intros known' Hi; apply H2. intros x Hx; apply Hi; right; exact Hx.
  - apply andb_true_iff in H1 as [Hc Hr].
    rewrite Hc; simpl. apply IH; assumption.
Qed.

Lemma closed_flat_map (A : Type) (g : A -> list event) (l : list A) :
  forall known,
    (forall x known', In x l -> incl known known' -> closed known' (g x) = true) ->
    closed known (flat_map g l) = true.
Proof.
  induction l as [| x r IH]; intros known Hg; simpl.
  - reflexivity.
  - apply closed_app.
    + apply Hg; [left; reflexivity | apply incl_refl].
    + intros known' Hi. apply IH.
      intros y known'' Hy Hi'. apply Hg; [right; exact Hy |].
      eapply incl_tran; eassumption.
Qed.

Lemma closed_trace_elements (l : list pyval) (n : string) (known : list string) :
  Forall (fun v => forall name known, closed known (trace_object v name) = true) l ->
  closed known (trace_elements (fun item => trace_object item n) l) = true.
Proof.
  intro Hl. unfold trace_elements. apply closed_flat_map.
  intros x known' Hx _. rewrite Forall_forall in Hl.
  destruct (is_dict x); [apply Hl; exact Hx | reflexivity].
Qed.

Lemma closed_trace_object (v : pyval) :
  forall name known, closed known (trace_object v name) = true.
Proof.
  induction v using dict_walk_ind.
  - destruct v; try discriminate; reflexivity.
  - intros name known. cbn [trace_object closed].
    apply closed_flat_map.
    intros [key value] known' Hin Hi.
    rewrite Forall_forall in H. destruct (H _ Hin) as [Hv Hl]; simpl in Hv, Hl.
    cbn [closed]. apply andb_true_iff; split.
    + apply existsb_eqb_in, Hi; left; reflexivity.
    + destruct value as [| | | | | l | d' |]; try reflexivity.
      * destruct l as [| first_element others]; [reflexivity |].
        destruct (is_dict first_element); [| reflexivity].
        apply closed_trace_elements. exact (Hl _ eq_refl).
      * destruct d' as [| kv d'']; [reflexivity | apply Hv].
Qed.

Lemma closed_trace_json (data : pyval) (class_name : string) :
  closed [] (trace_json data class_name) = true.
Proof.
  destruct data as [| | | | | l | d |]; try reflexivity.
  - destruct l as [| first_element others]; [reflexivity |].
    unfold trace_json. destruct (is_dict first_element); [| reflexivity].
    apply closed_trace_elements.
    rewrite Forall_forall; intros x _; apply closed_trace_object.
  - apply closed_trace_object.
Qed.

(** ** One step of the walk, and whole runs *)

Lemma dict_get_in (V : Type) (d : dict V) (k : string) (v : V) :
  dict_get k d = Some v -> In (k, v) d.
Proof.
  induction d as [| [k' v'] r IH]; simpl; [discriminate |].
  destruct (String.eqb k' k) eqn:E.
  - apply String.eqb_eq in E; subst; intro H; injection H as ->; left; reflexivity.
  - intro H; right; exact (IH H).
Qed.

Lemma dict_mem_set (V : Type) (d : dict V) (k k0 : string) (v : V) :
  dict_mem k0 (dict_set k v d) = String.eqb k k0 || dict_mem k0 d.
Proof.
  unfold dict_mem; rewrite dict_get_set.
  destruct (String.eqb k k0); reflexivity.
Qed.

Lemma dict_mem_ensure (c c0 : string) (s : schema) :
  dict_mem c0 (ensure_class c s) = String.eqb c c0 || dict_mem c0 s.
Proof.
  unfold ensure_class. destruct (dict_mem c s) eqn:E.
  - destruct (String.eqb c c0) eqn:E0; [| reflexivity].
    apply String.eqb_eq in E0; subst; exact E.
  - apply dict_mem_set.
Qed.

Lemma lookup_ensure (c c0 f : string) (s : schema) :
  lookup c0 f (ensure_class c s) = lookup c0 f s.
Proof.
  unfold ensure_class, lookup, dict_mem.
  destruct (dict_get c s) as [fs |] eqn:E; [reflexivity |].
  rewrite dict_get_set.
  destruct (String.eqb c c0) eqn:E0; [| reflexivity].
  apply String.eqb_eq in E0; subst; rewrite E; reflexivity.
Qed.

Section RunFacts.

Context {L : IsoFormats}.

Lemma apply_event_mem (e : event) (s s' : schema) (c : string) :
  apply_event e s = Ok s' -> dict_mem c s = true -> dict_mem c s' = true.
Proof.
  destruct e as [c0 | c0 key value]; simpl.
  - intro H; injection H as <-. rewrite dict_mem_ensure; intro Hm.
    apply orb_true_iff; right; exact Hm.
  - rewrite get_java_type_infer; cbn [bind]. unfold put_field.
    destruct (getitem c0 s) as [fs | ex]; simpl; [| discriminate].
    intro H; injection H as <-. rewrite dict_mem_set; intro Hm.
    apply orb_true_iff; right; exact Hm.
Qed.

Lemma apply_event_lookup (e : event) (s s' : schema) (c f : string) :
  apply_event e s = Ok s' ->
  lookup c f s' =
  match e with
  | Field _ key value =>
      if writes c f e then Some (stored key value) else lookup c f s
  | Enter _ => lookup c f s
  end.
Proof.
  destruct e as [c0 | c0 key value]; simpl.
  - intro H; injection H as <-. apply lookup_ensure.
  - rewrite get_java_type_infer; cbn [bind]. unfold put_field, getitem.
    destruct (dict_get c0 s) as [fs |] eqn:E; simpl; [| discriminate].
    intro H; injection H as <-.
    unfold lookup. rewrite dict_get_set.
    destruct (String.eqb c0 c) eqn:Ec; simpl.
    + apply String.eqb_eq in Ec; subst c0. rewrite dict_get_set, E.
      destruct (String.eqb (to_camel_case key) f); reflexivity.
    + reflexivity.
Qed.

Lemma apply_event_wf (e : event) (s s' : schema) :
  apply_event e s = Ok s' -> wf_schema s -> wf_schema s'.
Proof.
  intros He [Hk Hf]. destruct e as [c0 | c0 key value]; simpl in He.
  - injection He as <-. unfold ensure_class.
    destruct (dict_mem c0 s); [split; assumption |].
    split; [apply NoDup_keys_dict_set; exact Hk |].
    intros c fs Hin. apply in_dict_set in Hin as [[_ ->] | Hin].
    + constructor.
    + exact (Hf _ _ Hin).
  - rewrite get_java_type_infer in He; cbn [bind] in He.
    unfold put_field, getitem in He.
    destruct (dict_get c0 s) as [fs0 |] eqn:E; simpl in He; [| discriminate].
    injection He as <-.
    split; [apply NoDup_keys_dict_set; exact Hk |].
    intros c fs Hin. apply in_dict_set in Hin as [[_ ->] | Hin].
    + apply NoDup_keys_dict_set. apply (Hf c0). apply dict_get_in; exact E.
    + exact (Hf _ _ Hin).
Qed.

Lemma run_cons (e : event) (t : list event) (s : schema) :
  run (e :: t) s = bind (apply_event e s) (run t).
Proof. reflexivity. Qed.

Lemma run_total (t : list event) :
  forall known s,
    closed known t = true ->
    (forall c, In c known -> dict_mem c s = true) ->
    exists s', run t s = Ok s'.
Proof.
  induction t as [| [c0 | c0 key value] r IH]; intros known s Hc Hk.
  - exists s; reflexivity.
  - rewrite run_cons; cbn [apply_event bind]. simpl in Hc.
    apply (IH _ _ Hc). intros c [<- | Hin]; rewrite dict_mem_ensure.
    + rewrite String.eqb_refl; reflexivity.
    + apply orb_true_iff; right; exact (Hk _ Hin).
  - rewrite run_cons. simpl in Hc. apply andb_true_iff in Hc as [Hc0 Hr].
    apply existsb_eqb_in in Hc0. specialize (Hk _ Hc0) as Hmem.
    cbn [apply_event]. rewrite get_java_type_infer; cbn [bind].
    unfold put_field, getitem. unfold dict_mem in Hmem.
    destruct (dict_get c0 s) as [fs |] eqn:E; [| discriminate]. cbn [bind].
    apply (IH _ _ Hr). intros c Hin. rewrite dict_mem_set.
    apply orb_true_iff; right; exact (Hk _ Hin).
Qed.

Lemma run_mem (t : list event) (c : string) :
  forall s s', run t s = Ok s' -> dict_mem c s = true -> dict_mem c s' = true.
Proof.
  induction t as [| e r IH]; intros s s' Hrun Hm.
  - injection Hrun as <-; exact Hm.
  - rewrite run_cons in Hrun. apply bind_ok_inv in Hrun as [s1 [H1 Hr]].
    apply (IH _ _ Hr). eapply apply_event_mem; eassumption.
Qed.

Lemma run_enter (t : list event) (c : string) :
  forall s s', run t s = Ok s' -> In (Enter c) t -> dict_mem c s' = true.
Proof.
  induction t as [| e r IH]; intros s s' Hrun Hin; [destruct Hin |].
  rewrite run_cons in Hrun. apply bind_ok_inv in Hrun as [s1 [H1 Hr]].
  destruct Hin as [-> | Hin]; [| exact (IH _ _ Hr Hin)].
  eapply run_mem; [exact Hr |]. simpl in H1; injection H1 as <-.
  rewrite dict_mem_ensure, String.eqb_refl; reflexivity.
Qed.

Lemma run_lookup (t : list event) (c f : string) :
  forall s s',
    run t s = Ok s' ->
    lookup c f s' =
    match last_visit c f t with
    | Some (key, value) => Some (stored key value)
    | None => lookup c f s
    end.
Proof.
  induction t as [| e r IH]; intros s s' Hrun.
  - injection Hrun as <-; reflexivity.
  - rewrite run_cons in Hrun. apply bind_ok_inv in Hrun as [s1 [H1 Hr]].
    rewrite (IH _ _ Hr). cbn [last_visit].
    destruct (last_visit c f r) as [[key value] |]; [reflexivity |].
    rewrite (@apply_event_lookup e s s1 c f H1).
    destruct e as [c0 | c0 key value]; [reflexivity |].
    destruct (writes c f (Field c0 key value)); reflexivity.
Qed.

Lemma run_wf (t : list event) :
  forall s s', run t s = Ok s' -> wf_schema s -> wf_schema s'.
Proof.
  induction t as [| e r IH]; intros s s' Hrun Hw.
  - injection Hrun as <-; exact Hw.
  - rewrite run_cons in Hrun. apply bind_ok_inv in Hrun as [s1 [H1 Hr]].
    apply (IH _ _ Hr). eapply apply_event_wf; eassumption.
Qed.

Lemma last_visit_some (t : list event) (c key : string) (value : pyval) :
  In (Field c key value) t ->
  exists kv, last_visit c (to_camel_case key) t = Some kv.
Proof.
  induction t as [| e r IH]; intro Hin; [destruct Hin |].
  cbn [last_visit]. destruct Hin as [-> | Hin].
  - destruct (last_visit c (to_camel_case key) r) as [kv |]; [eauto |].
    simpl. rewrite !String.eqb_refl; simpl; eauto.
  - destruct (IH Hin) as [kv ->]; eauto.
Qed.

End RunFacts.

(** ** Where the events of a walk come from *)

Lemma trace_object_enter (items : list (string * pyval)) (n : string) :
  In (Enter n) (trace_object (PDict items) n).
Proof. left; reflexivity. Qed.

Lemma trace_object_field (items : list (string * pyval)) (n k : string) (v : pyval) :
  In (k, v) items -> In (Field n k v) (trace_object (PDict items) n).
Proof.
  intro Hin. cbn [trace_object]. right. apply in_flat_map.
  exists (k, v); split; [exact Hin | left; reflexivity].
Qed.

Lemma trace_object_dict_value (items : list (string * pyval)) (n key : string)
  (kv : string * pyval) (d : list (string * pyval)) :
  In (key, PDict (kv :: d)) items ->
  incl (trace_object (PDict (kv :: d)) (to_pascal_case key))
       (trace_object (PDict items) n).
Proof.
  intros Hin e He. cbn [trace_object]. right. apply in_flat_map.
  exists (key, PDict (kv :: d)); split; [exact Hin | right; exact He].
Qed.

Lemma trace_elements_incl (trace_of : pyval -> list event) (l : list pyval)
  (x : pyval) :
  In x l -> is_dict x = true -> incl (trace_of x) (trace_elements trace_of l).
Proof.
  intros Hin Hd e He. unfold trace_elements. apply in_flat_map.
  exists x; split; [exact Hin | rewrite Hd; exact He].
Qed.

Lemma trace_object_list_value (items : list (string * pyval)) (n key : string)
  (first_element : pyval) (others : list pyval) (x : pyval) :
  In (key, PList (first_element :: others)) items ->
  is_dict first_element = true ->
  In x (first_element :: others) ->
  is_dict x = true ->
  incl (trace_object x (to_pascal_case (rstrip_s key)))
       (trace_object (PDict items) n).
Proof.
  intros Hin Hfirst Hx Hd e He. cbn [trace_object]. right. apply in_flat_map.
  exists (key, PList (first_element :: others)); split; [exact Hin |].
  right. rewrite Hfirst.
  apply (@trace_elements_incl
           (fun item => trace_object item (to_pascal_case (rstrip_s key)))
           (first_element :: others) x Hx Hd).
  exact He.
Qed.

Lemma last_visit_in (t : list event) (c f key : string) (value : pyval) :
  last_visit c f t = Some (key, value) ->
  In (Field c key value) t /\ to_camel_case key = f.
Proof.
  induction t as [| e r IH]; cbn [last_visit]; [discriminate |].
  destruct (last_visit c f r) as [kv |].
  - intro H; injection H as ->. destruct (IH eq_refl) as [Hin Hf].
    split; [right; exact Hin | exact Hf].
  - destruct e as [c0 | c0 key0 value0]; [discriminate |].
    destruct (writes c f (Field c0 key0 value0)) eqn:W; [| discriminate].
    intro H; injection H as -> ->. simpl in W.
    apply andb_true_iff in W as [Hc Hf].
    apply String.eqb_eq in Hc, Hf; subst.
    split; [left; reflexivity | reflexivity].
Qed.

Section WalkFacts.

Context {L : IsoFormats}.

Lemma run_mem_inv (t : list event) (c : string) :
  forall s s',
    run t s = Ok s' -> dict_mem c s' = true ->
    dict_mem c s = true \/ In (Enter c) t.
Proof.
  induction t as [| e r IH]; intros s s' Hrun Hm.
  - injection Hrun as <-; left; exact Hm.
  - rewrite run_cons in Hrun. apply bind_ok_inv in Hrun as [s1 [H1 Hr]].
    destruct (IH _ _ Hr Hm) as [H | H]; [| right; right; exact H].
    destruct e as [c0 | c0 key value]; simpl in H1.
    + injection H1 as <-. rewrite dict_mem_ensure in H.
      apply orb_true_iff in H as [H | H]; [| left; exact H].
      apply String.eqb_eq in H; subst; right; left; reflexivity.
    + rewrite get_java_type_infer in H1; cbn [bind] in H1.
      unfold put_field, getitem in H1.
      destruct (dict_get c0 s) as [fs |] eqn:E; simpl in H1; [| discriminate].
      injection H1 as <-. rewrite dict_mem_set in H.
      apply orb_true_iff in H as [H | H]; [| left; exact H].
      apply String.eqb_eq in H; subst. left. unfold dict_mem; rewrite E; reflexivity.
Qed.

Lemma analyze_json_structure_total (data : pyval) (class_name : string) :
  exists classes, analyze_json_structure data class_name = Ok classes.
Proof.
  rewrite analyze_json_structure_run.
  apply run_total with (known := []).
  - apply closed_trace_json.
  - intros c [].
Qed.

Lemma analyze_object_total (items : list (string * pyval)) (name : string)
  (s : schema) :
  exists s', analyze_object (PDict items) name s = Ok s'.
Proof.
  rewrite analyze_object_run.
  apply run_total with (known := []).
  - apply closed_trace_object.
  - intros c [].
Qed.

Lemma wf_schema_empty : wf_schema [].
Proof. split; [constructor | intros c fs []]. Qed.

Lemma visited_field_stored (data : pyval) (class_name c key : string)
  (value : pyval) (classes : schema) :
  analyze_json_structure data class_name = Ok classes ->
  In (Field c key value) (trace_json data class_name) ->
  exists class_fields info,
    dict_get c classes = Some class_fields /\
    dict_get (to_camel_case key) class_fields = Some info.
Proof.
  intros Hrun Hin. rewrite analyze_json_structure_run in Hrun.
  destruct (last_visit_some _ _ _ _ Hin) as [[key' value'] Hlast].
  pose proof (run_lookup _ c (to_camel_case key) _ _ Hrun) as Hl.
  rewrite Hlast in Hl. unfold lookup in Hl.
  destruct (dict_get c classes) as [fs |]; [| discriminate].
  exists fs, (stored key' value'); split; [reflexivity | exact Hl].
Qed.

End WalkFacts.

(** ** Trailing-s stripping *)


Lemma infer_hint_irrelevant {L : IsoFormats} (v : pyval) (h1 h2 : string) :
  hint_sensitive v = false -> infer v h1 = infer v h2.
Proof.
  destruct v as [| | | | | l | d |]; try reflexivity; try discriminate.
  destruct l as [| x r]; [reflexivity |].
  simpl. destruct x; try reflexivity; discriminate.
Qed.

(** ** The scenarios of the specification, evaluated *)

Example naming_helpers :
  to_camel_case "user_name" = "userName" /\
  to_pascal_case "user_name" = "UserName" /\
  to_pascal_case (rstrip_s "items") = "Item" /\
  to_pascal_case EmptyString = EmptyString.
Proof. repeat split; reflexivity. Qed.

Example end_to_end_user :
  analyze_json_structure
    (PDict [("user_name", PStr "Ann"); ("age", PInt 30);
            ("tags", PList [PStr "x"; PStr "y"]);
            ("address", PDict [("city", PStr "NY")])])
    "Root"
  = Ok [("Root",
         [("userName", {| type := "String"; original_name := "user_name" |});
          ("age", {| type := "Integer"; original_name := "age" |});
          ("tags", {| type := "List<String>"; original_name := "tags" |});
          ("address", {| type := "Address"; original_name := "address" |})]);
        ("Address",
         [("city", {| type := "String"; original_name := "city" |})])].
Proof. vm_compute. reflexivity. Qed.

Example end_to_end_created_at :
  analyze_json_structure
    (PDict [("created_at", PStr "2023-05-01T10:00:00")]) "Event"
  = Ok [("Event",
         [("createdAt",
           {| type := "LocalDateTime"; original_name := "created_at" |})])].
Proof. vm_compute. reflexivity. Qed.

Example conflicting_element_types :
  analyze_json_structure
    (PDict [("items", PList [PDict [("x", PStr "5")]; PDict [("x", PInt 5)]])])
    "Root"
  = Ok [("Root",
         [("items", {| type := "List<Item>"; original_name := "items" |})]);
        ("Item", [("x", {| type := "Integer"; original_name := "x" |})])].
Proof. vm_compute. reflexivity. Qed.

(** * The claims *)

(** C1. When a field of the input object holds a non-empty list that starts
    with an object, every object element of the list is visited under the
    singularized, Pascal-cased key: after the walk the class of that name
    has a field for every key of every object element, not only for the
    keys of the first. *)
Theorem array_elements_all_visited {L : IsoFormats}
  (obj : list (string * pyval)) (root key : string)
  (first_element : list (string * pyval)) (others : list pyval)
  (element : list (string * pyval)) (k : string) (v : pyval) :
  In (key, PList (PDict first_element :: others)) obj ->
  In (PDict element) (PDict first_element :: others) ->
  In (k, v) element ->
  exists classes class_fields info,
    analyze_json_structure (PDict obj) root = Ok classes /\
    dict_get (to_pascal_case (rstrip_s key)) classes = Some class_fields /\
    dict_get (to_camel_case k) class_fields = Some info.
Proof.
  intros Hfield Helement Hkey.
  destruct (analyze_json_structure_total (PDict obj) root) as [classes Hrun].
  assert (Hvisit : In (Field (to_pascal_case (rstrip_s key)) k v)
                      (trace_json (PDict obj) root)).
  { apply (@trace_object_list_value obj root key (PDict first_element) others
             (PDict element) Hfield eq_refl Helement eq_refl).
    apply trace_object_field; exact Hkey. }
  destruct (visited_field_stored _ _ _ _ _ _ Hrun Hvisit) as [fs [info [Hc Hf]]].
  exists classes, fs, info; repeat split; assumption.
Qed.

(** The spec's example: [{"items":[{"a":1},{"b":2}]}] gives class [Item]
    both field [a] and field [b]. *)
Lemma array_elements_all_visited_witness :
  (exists classes class_fields info,
      analyze_json_structure (L := python_iso)
        (PDict [("items", PList [PDict [("a", PInt 1)]; PDict [("b", PInt 2)]])])
        "Root" = Ok classes /\
      dict_get "Item" classes = Some class_fields /\
      dict_get "a" class_fields = Some info) /\
  (exists classes class_fields info,
      analyze_json_structure (L := python_iso)
        (PDict [("items", PList [PDict [("a", PInt 1)]; PDict [("b", PInt 2)]])])
        "Root" = Ok classes /\
      dict_get "Item" classes = Some class_fields /\
      dict_get "b" class_fields = Some info).
Proof.
  split.
  - apply (@array_elements_all_visited python_iso
             [("items", PList [PDict [("a", PInt 1)]; PDict [("b", PInt 2)]])]
             "Root" "items" [("a", PInt 1)] [PDict [("b", PInt 2)]]
             [("a", PInt 1)] "a" (PInt 1)); simpl; auto.
  - apply (@array_elements_all_visited python_iso
             [("items", PList [PDict [("a", PInt 1)]; PDict [("b", PInt 2)]])]
             "Root" "items" [("a", PInt 1)] [PDict [("b", PInt 2)]]
             [("b", PInt 2)] "b" (PInt 2)); simpl; auto.
Defined.







(** C3, at the failing input [{"meta": {}}]: the root class gets a field of
    type [Meta], an object reference, and the returned map has no class
    [Meta].  For a field holding a non-empty object the referenced class
    is there. *)
Theorem empty_object_reference_dangles :
  analyze_json_structure (L := python_iso) (PDict [("meta", PDict [])]) "Root"
  = Ok [("Root", [("meta", {| type := "Meta"; original_name := "meta" |})])] /\
  class_refs (infer (L := python_iso) (PDict []) "meta") = ["Meta"] /\
  dict_mem "Meta"
    [("Root", [("meta", {| type := "Meta"; original_name := "meta" |})])]
  = false /\
  (forall (L : IsoFormats) obj root key kv d,
      In (key, PDict (kv :: d)) obj ->
      exists classes,
        analyze_json_structure (PDict obj) root = Ok classes /\
        class_refs (infer (PDict (kv :: d)) key) = [to_pascal_case key] /\
        dict_mem (to_pascal_case key) classes = true).
Proof.
  split; [reflexivity |]. split; [reflexivity |]. split; [reflexivity |].
  intros L obj root key kv d Hin.
  destruct (analyze_json_structure_total (PDict obj) root) as [classes Hrun].
  exists classes; split; [exact Hrun |]. split; [reflexivity |].
  rewrite analyze_json_structure_run in Hrun.
  apply (run_enter _ _ _ _ Hrun).
  apply (trace_object_dict_value obj root key kv d Hin).
  apply trace_object_enter.
Qed.

(** C4. The returned map has one entry per class name and, within a class,
    one descriptor per field name; the descriptor of a field is the one
    written by the last visit of that field in the order of the walk, with
    the type [get_java_type] gives for the value seen at that visit. *)
Theorem last_write_wins {L : IsoFormats} (data : pyval) (class_name : string) :
  exists classes,
    analyze_json_structure data class_name = Ok classes /\
    wf_schema classes /\
    (forall c f,
        lookup c f classes =
        match last_visit c f (trace_json data class_name) with
        | Some (key, value) => Some (stored key value)
        | None => None
        end) /\
    (forall key value,
        get_java_type value key = Ok (type (stored key value)) /\
        original_name (stored key value) = key).
Proof.
  destruct (analyze_json_structure_total data class_name) as [classes Hrun].
  exists classes. split; [exact Hrun |].
  rewrite analyze_json_structure_run in Hrun.
  split; [exact (run_wf _ _ _ Hrun wf_schema_empty) |].
  split.
  - intros c f. exact (run_lookup _ c f _ _ Hrun).
  - intros key value; split; [apply get_java_type_infer | reflexivity].
Qed.

(** C5, at the failing input: an empty object under the hint [meta] is
    inferred as the object reference [Meta], not as [Primitive(string)];
    the object rule fires for every dictionary, empty or not. *)
Theorem empty_object_inferred_as_reference :
  get_java_type (L := python_iso) (PDict []) "meta" = Ok "Meta" /\
  get_java_type (L := python_iso) (PDict []) "meta"
  <> Ok (render (Primitive KString)) /\
  (forall (L : IsoFormats) (d : list (string * pyval)) (h : string),
      get_java_type (PDict d) h = Ok (render (ObjectRef (to_pascal_case h)))).
Proof.
  split; [reflexivity |]. split; [discriminate |].
  intros L d h; reflexivity.
Qed.

(** What the code does for a non-empty list whose first element is not an
    object: the result is [ListOf] of the type of the first element
    inferred without the field name; the later elements play no part.
    This is [ListOf(infer(first, hint))] whenever the first element is
    not itself a list that starts with an object. *)
Theorem list_of_non_objects {L : IsoFormats}
  (first_element : pyval) (others : list pyval) (field_name : string) :
  is_dict first_element = false ->
  get_java_type (PList (first_element :: others)) field_name
  = (element_type <- get_java_type first_element EmptyString ;;
     Ok ("List<" ++ element_type ++ ">")) /\
  get_java_type (PList (first_element :: others)) field_name
  = Ok (render (ListOf (infer first_element EmptyString))) /\
  (forall others', get_java_type (PList (first_element :: others')) field_name
                   = get_java_type (PList (first_element :: others)) field_name) /\
  (hint_sensitive first_element = false ->
   get_java_type (PList (first_element :: others)) field_name
   = Ok (render (ListOf (infer first_element field_name)))).
Proof.
  intro Hfirst.
  assert (Hlist : forall rest,
             get_java_type (PList (first_element :: rest)) field_name
             = Ok (render (ListOf (infer first_element EmptyString)))).
  { intro rest. rewrite get_java_type_infer. cbn [infer].
    rewrite Hfirst. reflexivity. }
  split; [| split; [| split]].
  - rewrite Hlist, get_java_type_infer. reflexivity.
  - apply Hlist.
  - intro others'. rewrite !Hlist. reflexivity.
  - intro Hs. rewrite Hlist.
    rewrite (infer_hint_irrelevant first_element EmptyString field_name Hs).
    reflexivity.
Qed.

Lemma list_of_non_objects_witness :
  is_dict (PInt 1) = false /\
  get_java_type (L := python_iso) (PList [PInt 1; PStr "x"]) "counts"
  = Ok "List<Integer>".
Proof.
  split; [reflexivity |].
  destruct (@list_of_non_objects python_iso (PInt 1) [PStr "x"] "counts" eq_refl)
    as [_ [H _]].
  exact H.
Defined.

(** C6, at the failing input [[[{"a": 1}]]] under the hint [items]: the
    code answers [List<List<>>], a type that names no class, because the
    recursive call drops the field name; inferring the first element with
    the same hint, as the claim says, gives [List<List<Item>>]. *)
Lemma nested_list_loses_hint :
  get_java_type (L := python_iso) (PList [PList [PDict [("a", PInt 1)]]]) "items"
  = Ok "List<List<>>" /\
  (element_type <- get_java_type (L := python_iso)
                     (PList [PDict [("a", PInt 1)]]) "items" ;;
   Ok ("List<" ++ element_type ++ ">"))
  = Ok "List<List<Item>>" /\
  get_java_type (L := python_iso) (PList [PList [PDict [("a", PInt 1)]]]) "items"
  <> (element_type <- get_java_type (L := python_iso)
                        (PList [PDict [("a", PInt 1)]]) "items" ;;
      Ok ("List<" ++ element_type ++ ">")).
Proof.
  split; [reflexivity |]. split; [reflexivity |].
  vm_compute. discriminate.
Qed.

(** C7. A root list that starts with an object is walked element by
    element under the root class name, starting from the empty map: every
    key of every object element, the later ones included, becomes a field
    of the root class.  Nothing else is added: every class of the result
    was entered, and every field written, during the walk of some element,
    so there is no class for the list itself.  A root object is walked
    directly under the root class name, and each of its keys becomes a
    field of the root class. *)
Theorem root_list_elements_visited {L : IsoFormats}
  (first_element : list (string * pyval)) (others : list pyval)
  (d : list (string * pyval)) (class_name : string) :
  analyze_json_structure (PList (PDict first_element :: others)) class_name
  = for_each
      (fun (item : pyval) (classes : schema) =>
         if is_dict item then analyze_object item class_name classes
         else Ok classes)
      (PDict first_element :: others) [] /\
  analyze_json_structure (PDict d) class_name
  = analyze_object (PDict d) class_name [] /\
  (exists classes,
    analyze_json_structure (PList (PDict first_element :: others)) class_name
    = Ok classes /\
    dict_mem class_name classes = true /\
    (forall element k v,
        In (PDict element) (PDict first_element :: others) ->
        In (k, v) element ->
        exists class_fields info,
          dict_get class_name classes = Some class_fields /\
          dict_get (to_camel_case k) class_fields = Some info) /\
    (forall c, dict_mem c classes = true ->
               exists item, In item (PDict first_element :: others) /\
                            is_dict item = true /\
                            In (Enter c) (trace_object item class_name)) /\
    (forall c f info, lookup c f classes = Some info ->
               exists item key value,
                 In item (PDict first_element :: others) /\
                 is_dict item = true /\
                 In (Field c key value) (trace_object item class_name) /\
                 to_camel_case key = f)) /\
  (exists classes,
    analyze_json_structure (PDict d) class_name = Ok classes /\
    dict_mem class_name classes = true /\
    forall k v,
      In (k, v) d ->
      exists class_fields info,
        dict_get class_name classes = Some class_fields /\
        dict_get (to_camel_case k) class_fields = Some info).
Proof.
  split; [reflexivity |]. split; [reflexivity |]. split.
  - destruct (analyze_json_structure_total
                (PList (PDict first_element :: others)) class_name)
      as [classes Hrun].
    exists classes. split; [exact Hrun |].
    pose proof Hrun as Hrun'. rewrite analyze_json_structure_run in Hrun'.
    assert (Hfrom : forall e,
               In e (trace_json (PList (PDict first_element :: others)) class_name) ->
               exists item, In item (PDict first_element :: others) /\
                            is_dict item = true /\
                            In e (trace_object item class_name)).
    { intros e He. unfold trace_json in He. cbn [is_dict] in He.
      unfold trace_elements in He. apply in_flat_map in He as [item [Hi He]].
      exists item. destruct (is_dict item) eqn:E; [auto | destruct He]. }
    split; [| split; [| split]].
    + apply (run_enter _ _ _ _ Hrun'). left; reflexivity.
    + intros element k v Helement Hkey.
      apply (visited_field_stored _ _ class_name k v classes Hrun).
      unfold trace_json. cbn [is_dict].
      apply (trace_elements_incl
               (fun item => trace_object item class_name)
               (PDict first_element :: others) (PDict element) Helement eq_refl).
      apply trace_object_field; exact Hkey.
    + intros c Hc.
      destruct (run_mem_inv _ _ _ _ Hrun' Hc) as [H | H]; [discriminate H |].
      apply Hfrom; exact H.
    + intros c f info Hl.
      rewrite (run_lookup _ c f _ _ Hrun') in Hl.
      destruct (last_visit c f _) as [[key value] |] eqn:Hlast; [| discriminate Hl].
      apply last_visit_in in Hlast as [Hin Hf].
      destruct (Hfrom _ Hin) as [item [Hi [Hd He]]].
      exists item, key, value; auto.
  - destruct (analyze_json_structure_total (PDict d) class_name)
      as [classes Hrun].
    exists classes. split; [exact Hrun |].
    pose proof Hrun as Hrun'. rewrite analyze_json_structure_run in Hrun'.
    split.
    + apply (run_enter _ _ _ _ Hrun'). apply trace_object_enter.
    + intros k v Hkey.
      apply (visited_field_stored _ _ class_name k v classes Hrun).
      apply trace_object_field; exact Hkey.
Qed.

(** C8. The type inferencer never raises: for every value and every hint
    it returns the rendering of one descriptor.  [None] gives
    [Primitive(string)], and so does a value of a type no rule names. *)
Theorem infer_total {L : IsoFormats} (value : pyval) (field_name : string) :
  get_java_type value field_name = Ok (render (infer value field_name)) /\
  (forall e, get_java_type value field_name <> Raise e) /\
  get_java_type PNone field_name = Ok (render (Primitive KString)) /\
  (forall type_name,
      get_java_type (POther type_name) field_name
      = Ok (render (Primitive KString))).
Proof.
  split; [apply get_java_type_infer |].
  split; [intro e; rewrite get_java_type_infer; discriminate |].
  split; [reflexivity | intro type_name; reflexivity].
Qed.


(** C10. A root that is neither an object nor a non-empty list gives the
    empty map, without raising: no class is created, not even for the
    root class name. *)
Theorem other_roots_give_empty_schema {L : IsoFormats}
  (data : pyval) (class_name : string) :
  is_dict data = false ->
  is_list data && nonempty data = false ->
  analyze_json_structure data class_name = Ok [] /\
  dict_mem class_name ([] : schema) = false.
Proof.
  intros Hd Hl. split; [| reflexivity].
  destruct data as [| | | | | l | d |]; try reflexivity.
  - destruct l; [reflexivity | discriminate Hl].
  - discriminate Hd.
Qed.

Lemma other_roots_give_empty_schema_witness :
  analyze_json_structure (L := python_iso) PNone "Root" = Ok [] /\
  analyze_json_structure (L := python_iso) (PInt 7) "Root" = Ok [] /\
  analyze_json_structure (L := python_iso) (PList []) "Root" = Ok [].
Proof.
  split; [| split].
  - exact (proj1 (@other_roots_give_empty_schema python_iso PNone "Root"
                    eq_refl eq_refl)).
  - exact (proj1 (@other_roots_give_empty_schema python_iso (PInt 7) "Root"
                    eq_refl eq_refl)).
  - exact (proj1 (@other_roots_give_empty_schema python_iso (PList []) "Root"
                    eq_refl eq_refl)).
Defined.

(** * Further properties of the code *)

(** ** The naming helpers *)

Lemma upper_cases (a : ascii) : upper a = a \/ is_upper (upper a) = true.
Proof.
  destruct a as [[] [] [] [] [] [] [] []]; vm_compute; auto.
Qed.

Lemma lower_cases (a : ascii) : lower a = a \/ is_lower (lower a) = true.
Proof.
  destruct a as [[] [] [] [] [] [] [] []]; vm_compute; auto.
Qed.

Lemma upper_hits (x a : ascii) :
  is_letter x = false -> Ascii.eqb (upper a) x = Ascii.eqb a x.
Proof.
  intro Hx. destruct (upper_cases a) as [-> | Hu]; [reflexivity |].
  unfold is_letter in Hx. apply orb_false_iff in Hx as [Hxu Hxl].
  destruct (Ascii.eqb (upper a) x) eqn:E.
  - apply Ascii.eqb_eq in E. rewrite E in Hu. congruence.
  - destruct (Ascii.eqb a x) eqn:E'; [| reflexivity].
    apply Ascii.eqb_eq in E'. subst a.
    unfold upper in E. rewrite Hxl in E. rewrite Ascii.eqb_refl in E.
    discriminate E.
Qed.

Lemma lower_hits (x a : ascii) :
  is_letter x = false -> Ascii.eqb (lower a) x = Ascii.eqb a x.
Proof.
  intro Hx. destruct (lower_cases a) as [-> | Hu]; [reflexivity |].
  unfold is_letter in Hx. apply orb_false_iff in Hx as [Hxu Hxl].
  destruct (Ascii.eqb (lower a) x) eqn:E.
  - apply Ascii.eqb_eq in E. rewrite E in Hu. congruence.
  - destruct (Ascii.eqb a x) eqn:E'; [| reflexivity].
    apply Ascii.eqb_eq in E'. subst a.
    unfold lower in E. rewrite Hxu in E. rewrite Ascii.eqb_refl in E.
    discriminate E.
Qed.

Lemma occurs_lower_all (x : ascii) (s : string) :
  is_letter x = false -> occurs x (lower_all s) = occurs x s.
Proof.
  intro Hx. induction s as [| a r IH]; [reflexivity |].
  simpl. rewrite (lower_hits x a Hx), IH. reflexivity.
Qed.

Lemma occurs_capitalize (x : ascii) (s : string) :
  is_letter x = false -> occurs x (capitalize s) = occurs x s.
Proof.
  intro Hx. destruct s as [| a r]; [reflexivity |].
  simpl. rewrite (upper_hits x a Hx), (occurs_lower_all x r Hx). reflexivity.
Qed.

Lemma occurs_append (x : ascii) (s t : string) :
  occurs x (s ++ t) = occurs x s || occurs x t.
Proof.
  induction s as [| a r IH]; [reflexivity |].
  simpl. rewrite IH. apply orb_assoc.
Qed.

Lemma append_empty (s : string) : s ++ EmptyString = s.
Proof. induction s as [| a r IH]; [reflexivity | simpl; rewrite IH; reflexivity]. Qed.

Lemma join_cons (p : string) (ps : list string) :
  join (p :: ps) = p ++ join ps.
Proof.
  unfold join. destruct ps as [| q qs]; [| reflexivity].
  simpl. symmetry. apply append_empty.
Qed.

Lemma occurs_join (x : ascii) (l : list string) :
  Forall (fun p => occurs x p = false) l -> occurs x (join l) = false.
Proof.
  induction 1 as [| p ps Hp Hps IH]; [reflexivity |].
  rewrite join_cons, occurs_append, Hp, IH. reflexivity.
Qed.

Lemma split_underscore_clean (x : ascii) (s : string) :
  x = "_"%char \/ occurs x s = false ->
  Forall (fun p => occurs x p = false) (split_underscore s).
Proof.
  induction s as [| a r IH]; intro H.
  - repeat constructor.
  - cbn [split_underscore].
    assert (Hr : x = "_"%char \/ occurs x r = false).
    { destruct H as [H | H]; [left; exact H | right].
      simpl in H. apply orb_false_iff in H as [_ H]. exact H. }
    specialize (IH Hr).
    destruct (Ascii.eqb a "_"%char) eqn:Ea.
    + constructor; [reflexivity | exact IH].
    + assert (Hax : Ascii.eqb a x = false).
      { destruct H as [-> | H]; [exact Ea |].
        simpl in H. apply orb_false_iff in H as [H _]. exact H. }
      destruct (split_underscore r) as [| p ps].
      * constructor; [simpl; rewrite Hax; reflexivity | constructor].
      * inversion IH as [| p' ps' Hp Hps]; subst.
        constructor; [simpl; rewrite Hax; exact Hp | exact Hps].
Qed.

Lemma capitalized_clean (x : ascii) (l : list string) :
  is_letter x = false ->
  Forall (fun p => occurs x p = false) l ->
  Forall (fun p => occurs x p = false) (map capitalize l).
Proof.
  intros Hx Hl. induction Hl as [| p ps Hp Hps IH]; simpl; constructor.
  - rewrite (occurs_capitalize x p Hx). exact Hp.
  - exact IH.
Qed.

Lemma to_pascal_case_clean (x : ascii) (s : string) :
  is_letter x = false ->
  x = "_"%char \/ occurs x s = false ->
  occurs x (to_pascal_case s) = false.
Proof.
  intros Hx H. unfold to_pascal_case.
  apply occurs_join, capitalized_clean, split_underscore_clean; assumption.
Qed.

Lemma to_camel_case_clean (x : ascii) (s : string) :
  is_letter x = false ->
  x = "_"%char \/ occurs x s = false ->
  occurs x (to_camel_case s) = false.
Proof.
  intros Hx H. unfold to_camel_case.
  pose proof (split_underscore_clean x s H) as Hs.
  destruct (split_underscore s) as [| p ps]; [reflexivity |].
  inversion Hs as [| p' ps' Hp Hps]; subst.
  rewrite occurs_append, Hp. simpl.
  apply occurs_join, capitalized_clean; assumption.
Qed.

Lemma split_underscore_whole (s : string) :
  occurs "_"%char s = false -> split_underscore s = [s].
Proof.
  induction s as [| a r IH]; intro H; [reflexivity |].
  simpl in H. apply orb_false_iff in H as [Ha Hr].
  cbn [split_underscore]. rewrite Ha, (IH Hr). reflexivity.
Qed.

Lemma to_camel_case_whole (s : string) :
  occurs "_"%char s = false -> to_camel_case s = s.
Proof.
  intro H. unfold to_camel_case. rewrite (split_underscore_whole s H).
  apply append_empty.
Qed.

Lemma length_lower_all (s : string) :
  String.length (lower_all s) = String.length s.
Proof. induction s as [| a r IH]; [reflexivity | simpl; rewrite IH; reflexivity]. Qed.

Lemma length_capitalize (s : string) :
  String.length (capitalize s) = String.length s.
Proof. destruct s; [reflexivity | simpl; rewrite length_lower_all; reflexivity]. Qed.

Lemma length_append (s t : string) :
  String.length (s ++ t) = String.length s + String.length t.
Proof. induction s as [| a r IH]; [reflexivity | simpl; rewrite IH; reflexivity]. Qed.

Lemma length_join (l : list string) :
  String.length (join l) = list_sum (map String.length l).
Proof.
  induction l as [| p ps IH]; [reflexivity |].
  rewrite join_cons, length_append, IH. reflexivity.
Qed.

Lemma length_join_capitalize (l : list string) :
  String.length (join (map capitalize l)) = list_sum (map String.length l).
Proof.
  rewrite length_join, map_map. f_equal.
  apply map_ext; intro p; apply length_capitalize.
Qed.

Lemma split_underscore_lengths (s : string) :
  list_sum (map String.length (split_underscore s)) + count_char "_"%char s
  = String.length s.
Proof.
  induction s as [| a r IH]; [reflexivity |].
  cbn [split_underscore count_char String.length].
  destruct (Ascii.eqb a "_"%char).
  - simpl. lia.
  - destruct (split_underscore r) as [| p ps]; simpl in *; lia.
Qed.

(** X1. The identifiers produced by the two case conversions never contain
    an underscore. *)
Theorem case_conversions_drop_underscores (s : string) :
  occurs "_"%char (to_camel_case s) = false /\
  occurs "_"%char (to_pascal_case s) = false.
Proof.
  split.
  - apply to_camel_case_clean; [reflexivity | left; reflexivity].
  - apply to_pascal_case_clean; [reflexivity | left; reflexivity].
Qed.

(** X2. On an ASCII name both conversions only remove the underscores:
    the camel-case and the Pascal-case form have the same length, the
    length of the name less the number of its underscores. *)
Theorem case_conversions_length (s : string) :
  isascii s = true ->
  String.length (to_camel_case s) + count_char "_"%char s = String.length s /\
  String.length (to_pascal_case s) = String.length (to_camel_case s).
Proof.
  intros _. pose proof (split_underscore_lengths s) as Hs.
  unfold to_camel_case, to_pascal_case.
  destruct (split_underscore s) as [| p ps].
  - simpl in *. split; [exact Hs | reflexivity].
  - rewrite length_append, !length_join_capitalize.
    unfold list_sum in *. cbn [map fold_right] in *. split; lia.
Qed.

Lemma case_conversions_length_witness :
  String.length (to_camel_case "user_name") + 1 = 9 /\
  String.length (to_pascal_case "user_name")
  = String.length (to_camel_case "user_name").
Proof.
  exact (case_conversions_length "user_name" eq_refl).
Defined.

(** X3. A name without underscore is its own camel-case form, and its
    Pascal-case form is the name capitalized: first letter upper-cased, all
    the others lower-cased. *)
Theorem case_conversions_without_underscore (s : string) :
  occurs "_"%char s = false ->
  to_camel_case s = s /\ to_pascal_case s = capitalize s.
Proof.
  intro H. split; [exact (to_camel_case_whole s H) |].
  unfold to_pascal_case. rewrite (split_underscore_whole s H). reflexivity.
Qed.

Lemma case_conversions_without_underscore_witness :
  to_camel_case "userName" = "userName" /\
  to_pascal_case "userName" = "Username".
Proof.
  exact (case_conversions_without_underscore "userName" eq_refl).
Defined.

(** X4. Camel-casing is idempotent: a field name derived from a key is
    left alone when it is converted again. *)
Theorem to_camel_case_idempotent (s : string) :
  to_camel_case (to_camel_case s) = to_camel_case s.
Proof.
  apply to_camel_case_whole.
  apply to_camel_case_clean; [reflexivity | left; reflexivity].
Qed.

Lemma occurs_replace_old (old new : ascii) (s : string) :
  Ascii.eqb new old = false -> occurs old (replace_char old new s) = false.
Proof.
  intro Hne. induction s as [| a r IH]; [reflexivity |].
  simpl. rewrite IH, orb_false_r.
  destruct (Ascii.eqb a old) eqn:Ea; [exact Hne | exact Ea].
Qed.

Lemma occurs_replace_other (old new x : ascii) (s : string) :
  Ascii.eqb new x = false -> occurs x s = false ->
  occurs x (replace_char old new s) = false.
Proof.
  intro Hne. induction s as [| a r IH]; [reflexivity |].
  simpl. intro H. apply orb_false_iff in H as [Ha Hr].
  rewrite (IH Hr), orb_false_r.
  destruct (Ascii.eqb a old); [exact Hne | exact Ha].
Qed.

(** X5. The root class name [main] derives from a file stem contains no
    hyphen, no space and no underscore. *)
Theorem root_class_name_separators (stem : string) :
  occurs "-"%char (root_class_name stem) = false /\
  occurs " "%char (root_class_name stem) = false /\
  occurs "_"%char (root_class_name stem) = false.
Proof.
  unfold root_class_name. repeat split.
  - apply to_pascal_case_clean; [reflexivity | right].
    apply occurs_replace_other; [reflexivity |].
    apply occurs_replace_old; reflexivity.
  - apply to_pascal_case_clean; [reflexivity | right].
    apply occurs_replace_old; reflexivity.
  - apply to_pascal_case_clean; [reflexivity | left; reflexivity].
Qed.

(** ** The schema builder: what a walk keeps, adds and never does *)

Lemma keys_dict_set_extends (V : Type) (d : dict V) (k : string) (v : V) :
  exists added, keys (dict_set k v d) = (keys d ++ added)%list.
Proof.
  destruct (dict_get k d) as [v0 |] eqn:E.
  - exists []. rewrite (keys_dict_set_present V d k v v0 E), app_nil_r.
    reflexivity.
  - exists [k]. apply keys_dict_set_absent; exact E.
Qed.

Section BuilderFacts.

Context {L : IsoFormats}.

Lemma apply_event_keys (e : event) (s s' : schema) :
  apply_event e s = Ok s' ->
  (exists added, keys s' = (keys s ++ added)%list) /\
  (forall c fs,
      dict_get c s = Some fs ->
      exists fs' added_fields,
        dict_get c s' = Some fs' /\
        keys fs' = (keys fs ++ added_fields)%list).
Proof.
  destruct e as [c0 | c0 key value]; simpl.
  - intro H; injection H as <-. unfold ensure_class, dict_mem.
    destruct (dict_get c0 s) as [fs0 |] eqn:E.
    + split; [exists []; rewrite app_nil_r; reflexivity |].
      intros c fs Hc. exists fs, []. rewrite app_nil_r. auto.
    + split; [exists [c0]; apply keys_dict_set_absent; exact E |].
      intros c fs Hc. exists fs, []. rewrite app_nil_r. split; [| reflexivity].
      rewrite dict_get_set. destruct (String.eqb c0 c) eqn:Ec; [| exact Hc].
      apply String.eqb_eq in Ec; subst. congruence.
  - rewrite get_java_type_infer; cbn [bind]. unfold put_field, getitem.
    destruct (dict_get c0 s) as [fs0 |] eqn:E; simpl; [| discriminate].
    intro H; injection H as <-. split.
    + exists []. rewrite app_nil_r. eapply keys_dict_set_present; exact E.
    + intros c fs Hc. rewrite dict_get_set.
      destruct (String.eqb c0 c) eqn:Ec.
      * apply String.eqb_eq in Ec; subst c0.
        assert (fs0 = fs) by congruence. subst fs0.
        destruct (keys_dict_set_extends _ fs (to_camel_case key)
                    {| type := render (infer value key); original_name := key |})
          as [added Ha].
        eauto.
      * exists fs, []. rewrite app_nil_r. auto.
Qed.

Lemma run_keys (t : list event) :
  forall s s',
    run t s = Ok s' ->
    (exists added, keys s' = (keys s ++ added)%list) /\
    (forall c fs,
        dict_get c s = Some fs ->
        exists fs' added_fields,
          dict_get c s' = Some fs' /\
          keys fs' = (keys fs ++ added_fields)%list).
Proof.
  induction t as [| e r IH]; intros s s' Hrun.
  - injection Hrun as <-. split; [exists []; rewrite app_nil_r; reflexivity |].
    intros c fs Hc. exists fs, []. rewrite app_nil_r. auto.
  - rewrite run_cons in Hrun. apply bind_ok_inv in Hrun as [s1 [H1 Hr]].
    destruct (apply_event_keys _ _ _ H1) as [[a1 Hk1] Hf1].
    destruct (IH _ _ Hr) as [[a2 Hk2] Hf2]. split.
    + exists (a1 ++ a2)%list. rewrite Hk2, Hk1, app_assoc. reflexivity.
    + intros c fs Hc.
      destruct (Hf1 _ _ Hc) as [fs1 [b1 [Hc1 Hb1]]].
      destruct (Hf2 _ _ Hc1) as [fs2 [b2 [Hc2 Hb2]]].
      exists fs2, (b1 ++ b2)%list. split; [exact Hc2 |].
      rewrite Hb2, Hb1, app_assoc. reflexivity.
Qed.

Lemma lookup_some_mem (c f : string) (s : schema) (info : field_info) :
  lookup c f s = Some info -> dict_mem c s = true.
Proof.
  unfold lookup, dict_mem. destruct (dict_get c s); [reflexivity | discriminate].
Qed.

End BuilderFacts.

(** X6. Every descriptor of the result sits under the camel-case form of
    its own [original_name], and its type is what [get_java_type] gives for
    the value of some visited field with that key. *)
Theorem stored_fields_come_from_keys {L : IsoFormats}
  (data : pyval) (class_name : string) (classes : schema)
  (c f : string) (info : field_info) :
  analyze_json_structure data class_name = Ok classes ->
  lookup c f classes = Some info ->
  to_camel_case (original_name info) = f /\
  exists value,
    In (Field c (original_name info) value) (trace_json data class_name) /\
    get_java_type value (original_name info) = Ok (type info).
Proof.
  intros Hrun Hl. rewrite analyze_json_structure_run in Hrun.
  rewrite (run_lookup _ c f _ _ Hrun) in Hl.
  destruct (last_visit c f _) as [[key value] |] eqn:Hlast; [| discriminate Hl].
  injection Hl as <-. apply last_visit_in in Hlast as [Hin Hf].
  split; [exact Hf |]. exists value. split; [exact Hin |].
  apply get_java_type_infer.
Qed.

Lemma stored_fields_come_from_keys_witness :
  to_camel_case "user_name" = "userName" /\
  exists value,
    In (Field "Root" "user_name" value)
       (trace_json (PDict [("user_name", PStr "Ann"); ("age", PInt 30)]) "Root") /\
    get_java_type (L := python_iso) value "user_name" = Ok "String".
Proof.
  exact (@stored_fields_come_from_keys python_iso
           (PDict [("user_name", PStr "Ann"); ("age", PInt 30)]) "Root"
           [("Root",
             [("userName", {| type := "String"; original_name := "user_name" |});
              ("age", {| type := "Integer"; original_name := "age" |})])]
           "Root" "userName"
           {| type := "String"; original_name := "user_name" |}
           eq_refl eq_refl).
Defined.

(** X7. The schema builder never raises: not on any value handed to
    [analyze_json_structure], and [analyze_object] not on any dictionary
    from any store, so the lookup of the current class never fails.  Only
    a call of [analyze_object] on something that is not a dictionary
    raises. *)
Theorem schema_builder_never_raises {L : IsoFormats} :
  (forall data class_name,
      exists classes, analyze_json_structure data class_name = Ok classes) /\
  (forall items name s,
      exists s', analyze_object (PDict items) name s = Ok s') /\
  (forall obj name s,
      is_dict obj = false -> analyze_object obj name s = Raise AttributeError).
Proof.
  split; [exact analyze_json_structure_total |].
  split; [exact analyze_object_total |].
  intros obj name s Hd. destruct obj; try reflexivity. discriminate Hd.
Qed.

(** X8. A walk only adds to the store: every class that was there stays,
    every field that was there stays (possibly with a new descriptor), and
    a field that no visit of the walk writes keeps its descriptor. *)
Theorem walk_keeps_store {L : IsoFormats}
  (items : list (string * pyval)) (name : string) (s : schema) :
  exists s',
    analyze_object (PDict items) name s = Ok s' /\
    (forall c, dict_mem c s = true -> dict_mem c s' = true) /\
    (forall c f info,
        lookup c f s = Some info -> exists info', lookup c f s' = Some info') /\
    (forall c f,
        last_visit c f (trace_object (PDict items) name) = None ->
        lookup c f s' = lookup c f s).
Proof.
  destruct (analyze_object_total items name s) as [s' Hrun].
  exists s'. split; [exact Hrun |].
  rewrite analyze_object_run in Hrun.
  split; [| split].
  - intros c Hc. exact (run_mem _ c _ _ Hrun Hc).
  - intros c f info Hl. rewrite (run_lookup _ c f _ _ Hrun).
    destruct (last_visit c f _) as [[key value] |]; eauto.
  - intros c f Hlast. rewrite (run_lookup _ c f _ _ Hrun), Hlast. reflexivity.
Qed.

(** X9. Classes and fields keep their order of first discovery: after a
    walk the class names are those before it followed by the new ones, and
    the field names of every class that was there are those before
    followed by the new ones. *)
Theorem walk_appends_in_order {L : IsoFormats}
  (items : list (string * pyval)) (name : string) (s : schema) :
  exists s' added,
    analyze_object (PDict items) name s = Ok s' /\
    keys s' = (keys s ++ added)%list /\
    (forall c class_fields,
        dict_get c s = Some class_fields ->
        exists class_fields' added_fields,
          dict_get c s' = Some class_fields' /\
          keys class_fields' = (keys class_fields ++ added_fields)%list).
Proof.
  destruct (analyze_object_total items name s) as [s' Hrun].
  pose proof Hrun as Hrun'. rewrite analyze_object_run in Hrun'.
  destruct (run_keys _ _ _ Hrun') as [[added Hk] Hf].
  exists s', added. auto.
Qed.

(** X10. When the root is an object, or a list that starts with an object,
    the root class is the first class of the result. *)
Theorem root_class_comes_first {L : IsoFormats}
  (d : list (string * pyval)) (others : list pyval) (class_name : string) :
  (exists classes rest,
      analyze_json_structure (PDict d) class_name = Ok classes /\
      keys classes = class_name :: rest) /\
  (exists classes rest,
      analyze_json_structure (PList (PDict d :: others)) class_name = Ok classes /\
      keys classes = class_name :: rest).
Proof.
  assert (H : forall t,
             closed [class_name] t = true ->
             exists classes rest,
               run (Enter class_name :: t) [] = Ok classes /\
               keys classes = class_name :: rest).
  { intros t Ht.
    destruct (run_total t [class_name] [(class_name, [])] Ht) as [classes Hrun].
    { intros c [<- | []]. unfold dict_mem; simpl.
      rewrite String.eqb_refl; reflexivity. }
    destruct (run_keys _ _ _ Hrun) as [[added Hk] _].
    exists classes, added. split; [exact Hrun | exact Hk]. }
  split.
  - destruct (H (tl (trace_object (PDict d) class_name))) as [classes [rest [Hr Hk]]].
    { exact (closed_trace_object (PDict d) class_name []). }
    exists classes, rest. split; [| exact Hk].
    rewrite analyze_json_structure_run. exact Hr.
  - destruct (H (tl (trace_json (PList (PDict d :: others)) class_name)))
      as [classes [rest [Hr Hk]]].
    { exact (closed_trace_json (PList (PDict d :: others)) class_name). }
    exists classes, rest. split; [| exact Hk].
    rewrite analyze_json_structure_run. exact Hr.
Qed.

(** X11. Every key of the root object becomes a field of the root class,
    and every key of a non-empty object held by a field becomes a field of
    the class named after that field. *)
Theorem keys_become_fields {L : IsoFormats} :
  (forall d root k v,
      In (k, v) d ->
      exists classes class_fields info,
        analyze_json_structure (PDict d) root = Ok classes /\
        dict_get root classes = Some class_fields /\
        dict_get (to_camel_case k) class_fields = Some info) /\
  (forall obj root key kv d k v,
      In (key, PDict (kv :: d)) obj ->
      In (k, v) (kv :: d) ->
      exists classes class_fields info,
        analyze_json_structure (PDict obj) root = Ok classes /\
        dict_get (to_pascal_case key) classes = Some class_fields /\
        dict_get (to_camel_case k) class_fields = Some info).
Proof.
  split.
  - intros d root k v Hin.
    destruct (analyze_json_structure_total (PDict d) root) as [classes Hrun].
    destruct (visited_field_stored (PDict d) root root k v classes Hrun)
      as [fs [info [Hc Hf]]].
    { apply trace_object_field; exact Hin. }
    exists classes, fs, info; auto.
  - intros obj root key kv d k v Hfield Hin.
    destruct (analyze_json_structure_total (PDict obj) root) as [classes Hrun].
    destruct (visited_field_stored (PDict obj) root (to_pascal_case key) k v
                classes Hrun) as [fs [info [Hc Hf]]].
    { apply (trace_object_dict_value obj root key kv d Hfield).
      apply trace_object_field; exact Hin. }
    exists classes, fs, info; auto.
Qed.

Lemma trace_elements_filter (trace_of : pyval -> list event) (l : list pyval) :
  trace_elements trace_of (filter is_dict l) = trace_elements trace_of l.
Proof.
  unfold trace_elements. induction l as [| x r IH]; [reflexivity |].
  simpl. destruct (is_dict x) eqn:E; simpl; rewrite ?E, IH; reflexivity.
Qed.

(** X12. Elements of a list that are not objects are passed over: dropping
    them from the tail of a root list, or of a list held by a field,
    changes neither the schema nor the type of the field. *)
Theorem non_object_elements_are_skipped {L : IsoFormats} :
  (forall d others class_name,
      analyze_json_structure (PList (PDict d :: others)) class_name
      = analyze_json_structure (PList (PDict d :: filter is_dict others))
          class_name) /\
  (forall before key d others after name s,
      analyze_object
        (PDict (before ++ (key, PList (PDict d :: others)) :: after)) name s
      = analyze_object
          (PDict (before ++ (key, PList (PDict d :: filter is_dict others)) :: after))
          name s).
Proof.
  split.
  - intros d others class_name. rewrite !analyze_json_structure_run.
    unfold trace_json. cbn [is_dict].
    rewrite <- (trace_elements_filter _ (PDict d :: others)). reflexivity.
  - intros before key d others after name s. rewrite !analyze_object_run.
    cbn [trace_object]. rewrite !flat_map_app. cbn [flat_map is_dict].
    rewrite <- (trace_elements_filter _ (PDict d :: others)).
    cbn [filter is_dict].
    rewrite !run_cons. destruct (apply_event (Enter name) s) as [s0 | e];
      cbn [bind]; [| reflexivity].
    rewrite !run_app. destruct (run _ s0) as [s1 | e]; cbn [bind]; [| reflexivity].
    rewrite <- !app_comm_cons, !run_cons. reflexivity.
Qed.

(** ** Walking the same object twice *)

Lemma not_in_keys_dict_get (V : Type) (d : dict V) (k : string) :
  ~ In k (keys d) -> dict_get k d = None.
Proof.
  intro H. destruct (dict_get k d) as [v |] eqn:E; [| reflexivity].
  exfalso. apply H. exact (dict_get_in_keys V d k v E).
Qed.

Lemma in_keys_dict_get (V : Type) (d : dict V) (k : string) :
  In k (keys d) -> exists v, dict_get k d = Some v.
Proof.
  intro H. destruct (dict_get k d) as [v |] eqn:E; [eauto |].
  exfalso. exact (dict_get_none_keys V d k E H).
Qed.

Lemma app_nodup_nil (A : Type) (l added : list A) :
  NoDup (l ++ added) -> (forall x, In x added -> In x l) -> added = [].
Proof.
  intros Hn Hin. destruct added as [| x r]; [reflexivity |].
  exfalso. apply NoDup_remove_2 in Hn. apply Hn, in_or_app. left.
  apply Hin. left; reflexivity.
Qed.

Lemma dict_ext (V : Type) (d1 : dict V) :
  forall d2 : dict V,
    keys d1 = keys d2 ->
    NoDup (keys d1) ->
    (forall k, dict_get k d1 = dict_get k d2) ->
    d1 = d2.
Proof.
  induction d1 as [| [k1 v1] r1 IH]; intros [| [k2 v2] r2] Hk Hn Hg;
    try discriminate Hk; [reflexivity |].
  unfold keys in Hk; simpl in Hk. injection Hk as <- Hk.
  unfold keys in Hn; simpl in Hn. inversion Hn as [| x xs Hnot Hn']; subst.
  pose proof (Hg k1) as H1. simpl in H1. rewrite String.eqb_refl in H1.
  injection H1 as <-. f_equal. apply IH; [exact Hk | exact Hn' |].
  intro k. destruct (String.eqb k1 k) eqn:E.
  - apply String.eqb_eq in E; subst k.
    rewrite (not_in_keys_dict_get V r1 k1 Hnot).
    symmetry. apply not_in_keys_dict_get. unfold keys. rewrite <- Hk. exact Hnot.
  - specialize (Hg k). simpl in Hg. rewrite E in Hg. exact Hg.
Qed.

Lemma schema_ext (s1 : schema) :
  forall s2 : schema,
    wf_schema s1 ->
    keys s1 = keys s2 ->
    (forall c fs1, dict_get c s1 = Some fs1 ->
                   exists fs2, dict_get c s2 = Some fs2 /\ keys fs2 = keys fs1) ->
    (forall c f, lookup c f s1 = lookup c f s2) ->
    s1 = s2.
Proof.
  induction s1 as [| [c1 fs1] r1 IH]; intros [| [c2 fs2] r2] [Hn Hf] Hk Hs Hl;
    try discriminate Hk; [reflexivity |].
  unfold keys in Hk; simpl in Hk. injection Hk as <- Hk.
  unfold keys in Hn; simpl in Hn. inversion Hn as [| x xs Hnot Hn']; subst.
  assert (Hfs : fs1 = fs2).
  { destruct (Hs c1 fs1) as [fs2' [H2 Hk2]].
    { simpl. rewrite String.eqb_refl. reflexivity. }
    simpl in H2. rewrite String.eqb_refl in H2. injection H2 as <-.
    apply dict_ext; [symmetry; exact Hk2 | apply (Hf c1); left; reflexivity |].
    intro f. specialize (Hl c1 f). unfold lookup in Hl. simpl in Hl.
    rewrite String.eqb_refl in Hl. exact Hl. }
  subst fs2. f_equal. apply IH.
  - split; [exact Hn' |]. intros c fs Hin. apply (Hf c). right; exact Hin.
  - exact Hk.
  - intros c fs Hc.
    assert (Hne : String.eqb c1 c = false).
    { apply String.eqb_neq. intros ->. apply Hnot.
      exact (dict_get_in_keys _ r1 c fs Hc). }
    destruct (Hs c fs) as [fs' [H2 Hk2]].
    { simpl. rewrite Hne. exact Hc. }
    simpl in H2. rewrite Hne in H2. eauto.
  - intros c f. destruct (String.eqb c1 c) eqn:E.
    + apply String.eqb_eq in E; subst c. unfold lookup.
      rewrite (not_in_keys_dict_get _ r1 c1 Hnot).
      rewrite (not_in_keys_dict_get _ r2 c1); [reflexivity |].
      unfold keys. rewrite <- Hk. exact Hnot.
    + specialize (Hl c f). unfold lookup in Hl. simpl in Hl. rewrite E in Hl.
      exact Hl.
Qed.

Section Idempotence.

Context {L : IsoFormats}.

Lemma apply_event_superset (e : event) (s s' u : schema) :
  apply_event e s = Ok s' ->
  (forall c, dict_mem c s = true -> dict_mem c u = true) ->
  exists u', apply_event e u = Ok u' /\
             forall c, dict_mem c s' = true -> dict_mem c u' = true.
Proof.
  intros He Hsub. destruct e as [c0 | c0 key value]; simpl in *.
  - injection He as <-. eexists; split; [reflexivity |].
    intro c. rewrite !dict_mem_ensure, !orb_true_iff.
    intros [H | H]; [left; exact H | right; exact (Hsub c H)].
  - rewrite get_java_type_infer in *; cbn [bind] in *.
    unfold put_field, getitem in *.
    destruct (dict_get c0 s) as [fs |] eqn:E; simpl in He; [| discriminate].
    injection He as <-.
    assert (Hu : dict_mem c0 u = true).
    { apply Hsub. unfold dict_mem; rewrite E; reflexivity. }
    unfold dict_mem in Hu.
    destruct (dict_get c0 u) as [fu |] eqn:Eu; [| discriminate]. cbn [bind].
    eexists; split; [reflexivity |].
    intro c. rewrite !dict_mem_set, !orb_true_iff.
    intros [H | H]; [left; exact H | right; exact (Hsub c H)].
Qed.

Lemma run_superset (t : list event) :
  forall s s' u,
    run t s = Ok s' ->
    (forall c, dict_mem c s = true -> dict_mem c u = true) ->
    exists u', run t u = Ok u'.
Proof.
  induction t as [| e r IH]; intros s s' u Hrun Hsub.
  - exists u; reflexivity.
  - rewrite run_cons in Hrun. apply bind_ok_inv in Hrun as [s1 [H1 Hr]].
    destruct (apply_event_superset e s s1 u H1 Hsub) as [u1 [Hu1 Hsub1]].
    rewrite run_cons, Hu1; cbn [bind]. exact (IH s1 s' u1 Hr Hsub1).
Qed.

Lemma run_twice (t : list event) (s s1 : schema) :
  wf_schema s -> run t s = Ok s1 -> run t s1 = Ok s1.
Proof.
  intros Hw Hrun.
  destruct (run_superset t s s1 s1 Hrun) as [s2 Hrun2].
  { intros c Hc. exact (run_mem t c s s1 Hrun Hc). }
  rewrite Hrun2. f_equal. symmetry.
  pose proof (run_wf t s s1 Hrun Hw) as Hw1.
  pose proof (run_wf t s1 s2 Hrun2 Hw1) as Hw2.
  assert (Hl : forall c f, lookup c f s1 = lookup c f s2).
  { intros c f. rewrite (run_lookup t c f s1 s2 Hrun2).
    pose proof (run_lookup t c f s s1 Hrun) as H1.
    destruct (last_visit c f t) as [[key value] |]; [exact H1 | reflexivity]. }
  destruct (run_keys t s1 s2 Hrun2) as [[added Hk] Hf].
  assert (Hadded : added = []).
  { apply (app_nodup_nil string (keys s1)).
    - rewrite <- Hk. exact (proj1 Hw2).
    - intros x Hx.
      assert (Hx2 : dict_mem x s2 = true).
      { destruct (in_keys_dict_get _ s2 x) as [v Hv].
        { rewrite Hk. apply in_or_app; right; exact Hx. }
        unfold dict_mem; rewrite Hv; reflexivity. }
      assert (Hx1 : dict_mem x s1 = true).
      { destruct (run_mem_inv t x s1 s2 Hrun2 Hx2) as [H | H]; [exact H |].
        exact (run_enter t x s s1 Hrun H). }
      unfold dict_mem in Hx1.
      destruct (dict_get x s1) as [v |] eqn:Ev; [| discriminate].
      exact (dict_get_in_keys _ s1 x v Ev). }
  subst added. rewrite app_nil_r in Hk.
  apply schema_ext; [exact Hw1 | symmetry; exact Hk | | exact Hl].
  intros c fs1 Hc. destruct (Hf c fs1 Hc) as [fs2 [addf [Hc2 Hk2]]].
  exists fs2. split; [exact Hc2 |].
  assert (Haddf : addf = []).
  { apply (app_nodup_nil string (keys fs1)).
    - rewrite <- Hk2. apply (proj2 Hw2 c). apply dict_get_in; exact Hc2.
    - intros x Hx.
      destruct (in_keys_dict_get _ fs2 x) as [v Hv].
      { rewrite Hk2. apply in_or_app; right; exact Hx. }
      specialize (Hl c x). unfold lookup in Hl. rewrite Hc, Hc2, Hv in Hl.
      exact (dict_get_in_keys _ fs1 x v Hl). }
  subst addf. rewrite app_nil_r in Hk2. exact Hk2.
Qed.

End Idempotence.

(** X13. Walking an object a second time over the store that its first
    walk produced changes nothing, provided the store had unique class and
    field names to begin with. *)
Theorem walk_is_idempotent {L : IsoFormats}
  (items : list (string * pyval)) (name : string) (s s1 : schema) :
  wf_schema s ->
  analyze_object (PDict items) name s = Ok s1 ->
  analyze_object (PDict items) name s1 = Ok s1.
Proof.
  intros Hw Hrun. rewrite analyze_object_run in *.
  exact (run_twice _ s s1 Hw Hrun).
Qed.

Lemma walk_is_idempotent_witness :
  analyze_object (L := python_iso)
    (PDict [("id", PInt 1); ("tags", PList [PDict [("t", PStr "x")]])]) "Root"
    [("Root", [("id", {| type := "Integer"; original_name := "id" |});
               ("tags", {| type := "List<Tag>"; original_name := "tags" |})]);
     ("Tag", [("t", {| type := "String"; original_name := "t" |})])]
  = Ok [("Root", [("id", {| type := "Integer"; original_name := "id" |});
                  ("tags", {| type := "List<Tag>"; original_name := "tags" |})]);
        ("Tag", [("t", {| type := "String"; original_name := "t" |})])].
Proof.
  exact (@walk_is_idempotent python_iso
           [("id", PInt 1); ("tags", PList [PDict [("t", PStr "x")]])] "Root"
           [] _ wf_schema_empty eq_refl).
Defined.

(** X14. An element of a root list that repeats the element just before it
    adds nothing: the schema is the one of the list without the repeat. *)
Theorem repeated_element_adds_nothing {L : IsoFormats}
  (before : list pyval) (element : pyval) (after : list pyval)
  (class_name : string) :
  analyze_json_structure (PList (before ++ element :: element :: after)) class_name
  = analyze_json_structure (PList (before ++ element :: after)) class_name.
Proof.
  rewrite !analyze_json_structure_run.
  assert (Htrace : forall l,
             trace_json (PList l) class_name =
             match l with
             | [] => []
             | x :: _ =>
                 if is_dict x
                 then trace_elements (fun item => trace_object item class_name) l
                 else []
             end).
  { intros [| x r]; reflexivity. }
  rewrite !Htrace.
  assert (Hhead : forall rest1 rest2,
             match (before ++ element :: rest1)%list with
             | [] => true
             | x :: _ => is_dict x
             end
             = match (before ++ element :: rest2)%list with
               | [] => true
               | x :: _ => is_dict x
               end).
  { intros rest1 rest2. destruct before; reflexivity. }
  specialize (Hhead (element :: after) after).
  destruct (before ++ element :: element :: after)%list as [| x r] eqn:E1;
    [destruct before; discriminate E1 |].
  destruct (before ++ element :: after)%list as [| y q] eqn:E2;
    [destruct before; discriminate E2 |].
  rewrite <- Hhead. destruct (is_dict x); [| reflexivity].
  rewrite <- E1, <- E2. unfold trace_elements.
  rewrite !flat_map_app. cbn [flat_map]. rewrite !run_app.
  destruct (run _ []) as [s0 |] eqn:R0; cbn [bind]; [| reflexivity].
  assert (Hw0 : wf_schema s0) by exact (run_wf _ _ _ R0 wf_schema_empty).
  rewrite !run_app.
  destruct (run (if is_dict element then _ else _) s0) as [s1 |] eqn:R1;
    cbn [bind]; [| reflexivity].
  rewrite run_app, (run_twice _ s0 s1 Hw0 R1). reflexivity.
Qed.

(** ** The renderer *)

Lemma append_assoc (s t u : string) : (s ++ t) ++ u = s ++ (t ++ u).
Proof. induction s as [| a r IH]; [reflexivity | simpl; rewrite IH; reflexivity]. Qed.

Lemma join_app (l1 l2 : list string) : join (l1 ++ l2) = join l1 ++ join l2.
Proof.
  induction l1 as [| p ps IH]; [reflexivity |].
  rewrite <- app_comm_cons, !join_cons, IH, append_assoc. reflexivity.
Qed.

Lemma fold_left_append (A : Type) (g : A -> string) (l : list A) :
  forall init,
    fold_left (fun code x => code ++ g x) l init = init ++ join (map g l).
Proof.
  induction l as [| x r IH]; intro init; simpl.
  - symmetry; apply append_empty.
  - rewrite IH, (join_cons (g x)), append_assoc. reflexivity.
Qed.

Lemma contains_refl (p : string) : contains p p.
Proof. exists EmptyString, EmptyString. simpl. symmetry; apply append_empty. Qed.

Lemma contains_append_l (p s t : string) : contains p t -> contains p (s ++ t).
Proof.
  intros [b [a ->]]. exists (s ++ b), a. rewrite append_assoc. reflexivity.
Qed.

Lemma contains_append_r (p s t : string) : contains p t -> contains p (t ++ s).
Proof.
  intros [b [a ->]]. exists b, (a ++ s). rewrite !append_assoc. reflexivity.
Qed.

Lemma contains_join (A : Type) (g : A -> string) (l : list A) (x : A) :
  In x l -> contains (g x) (join (map g l)).
Proof.
  intro Hin. apply in_split in Hin as [l1 [l2 ->]].
  rewrite map_app, join_app. cbn [map]. rewrite join_cons.
  apply contains_append_l, contains_append_r, contains_refl.
Qed.

Lemma in_set_add (x y : string) (l : list string) :
  In y (set_add x l) <-> y = x \/ In y l.
Proof.
  unfold set_add. destruct (existsb (String.eqb x) l) eqn:E.
  - apply existsb_eqb_in in E. split; [auto | intros [-> | H]; assumption].
  - rewrite in_app_iff. simpl. split; intros [H | H]; auto.
    destruct H as [H | []]; auto.
Qed.

Lemma NoDup_set_add (x : string) (l : list string) :
  NoDup l -> NoDup (set_add x l).
Proof.
  intro Hn. unfold set_add. destruct (existsb (String.eqb x) l) eqn:E; [exact Hn |].
  apply NoDup_app; [exact Hn | repeat constructor; simpl; tauto |].
  intros y Hy [<- | []].
  apply existsb_eqb_in in Hy. congruence.
Qed.

Lemma in_insert_sorted (x y : string) (l : list string) :
  In y (insert_sorted x l) <-> y = x \/ In y l.
Proof.
  induction l as [| z r IH]; simpl.
  - split; intros [H | H]; auto.
  - destruct (String.leb x z); simpl; [split; intros [H | H]; auto |].
    rewrite IH. tauto.
Qed.

Lemma in_sorted (y : string) (l : list string) : In y (sorted l) <-> In y l.
Proof.
  unfold sorted. induction l as [| x r IH]; simpl; [tauto |].
  rewrite in_insert_sorted, IH. split; intros [H | H]; auto.
Qed.

Lemma NoDup_insert_sorted (x : string) (l : list string) :
  ~ In x l -> NoDup l -> NoDup (insert_sorted x l).
Proof.
  induction l as [| z r IH]; intros Hx Hn; simpl.
  - repeat constructor; simpl; tauto.
  - destruct (String.leb x z); [constructor; assumption |].
    inversion Hn as [| z' r' Hz Hr]; subst. constructor.
    + rewrite in_insert_sorted. intros [-> | H]; [apply Hx; left; reflexivity |].
      exact (Hz H).
    + apply IH; [intro H; apply Hx; right; exact H | exact Hr].
Qed.

Lemma NoDup_sorted (l : list string) : NoDup l -> NoDup (sorted l).
Proof.
  unfold sorted. induction 1 as [| x r Hx Hr IH]; simpl; [constructor |].
  apply NoDup_insert_sorted; [| exact IH].
  intro H. apply Hx. apply (in_sorted x r). exact H.
Qed.

Lemma HdRel_insert_sorted (x y : string) (l : list string) :
  String.leb y x = true ->
  HdRel (fun a b => String.leb a b = true) y l ->
  HdRel (fun a b => String.leb a b = true) y (insert_sorted x l).
Proof.
  intros Hyx Hd. destruct l as [| z r]; simpl; [constructor; exact Hyx |].
  destruct (String.leb x z); constructor; [exact Hyx |].
  inversion Hd; assumption.
Qed.

Lemma Sorted_insert_sorted (x : string) (l : list string) :
  Sorted (fun a b => String.leb a b = true) l ->
  Sorted (fun a b => String.leb a b = true) (insert_sorted x l).
Proof.
  induction 1 as [| y r Hs IH Hd]; simpl.
  - repeat constructor.
  - destruct (String.leb x y) eqn:E.
    + constructor; [constructor; assumption | constructor; exact E].
    + constructor; [exact IH |].
      apply HdRel_insert_sorted; [| exact Hd].
      destruct (String.leb_total x y) as [H | H]; [congruence | exact H].
Qed.

Lemma Sorted_sorted (l : list string) :
  Sorted (fun a b => String.leb a b = true) (sorted l).
Proof.
  unfold sorted. induction l as [| x r IH]; simpl; [constructor |].
  apply Sorted_insert_sorted; exact IH.
Qed.

Lemma in_field_imports (y : string) (imports : list string) (info : field_info) :
  In y (field_imports imports info) <-> In y imports \/ triggers info y.
Proof.
  unfold field_imports, triggers.
  destruct (String.prefix "List<" (type info));
    destruct (String.eqb_spec "LocalDate" (type info)) as [Ed | Ed];
    destruct (String.eqb_spec "LocalTime" (type info)) as [Et | Et];
    destruct (String.eqb_spec "LocalDateTime" (type info)) as [Edt | Edt];
    rewrite ?in_set_add;
    intuition (try congruence; try discriminate).
Qed.

Lemma NoDup_field_imports (imports : list string) (info : field_info) :
  NoDup imports -> NoDup (field_imports imports info).
Proof.
  intro Hn. unfold field_imports.
  destruct (String.prefix "List<" (type info));
    destruct (String.eqb "LocalDate" (type info));
    destruct (String.eqb "LocalTime" (type info));
    destruct (String.eqb "LocalDateTime" (type info));
    repeat apply NoDup_set_add; exact Hn.
Qed.

Lemma in_fold_field_imports (y : string) (class_fields : fields) :
  forall imports,
    In y (fold_left (fun imports item => field_imports imports (snd item))
            class_fields imports)
    <-> In y imports \/
        exists f info, In (f, info) class_fields /\ triggers info y.
Proof.
  induction class_fields as [| [f info] r IH]; intro imports; simpl.
  - split; [auto | intros [H | [f [info [[] _]]]]; exact H].
  - rewrite IH, in_field_imports. split.
    + intros [[H | H] | [f' [info' [Hin Ht]]]]; eauto 6.
    + intros [H | [f' [info' [[Heq | Hin] Ht]]]]; eauto 6.
      injection Heq as <- <-. auto.
Qed.

Lemma NoDup_fold_field_imports (class_fields : fields) :
  forall imports,
    NoDup imports ->
    NoDup (fold_left (fun imports item => field_imports imports (snd item))
             class_fields imports).
Proof.
  induction class_fields as [| item r IH]; intros imports Hn; simpl; [exact Hn |].
  apply IH, NoDup_field_imports, Hn.
Qed.

Lemma generate_java_class_layout (class_name : string) (class_fields : fields)
  (access_modifier : option string) (package_name : string)
  (generate_getters generate_setters : bool) :
  generate_java_class class_name class_fields access_modifier package_name
    generate_getters generate_setters
  = ((((((("package " ++ package_name ++ ";" ++ nl ++ nl)
          ++ join (map (fun imp => imp ++ nl) (sorted (collect_imports class_fields))))
         ++ (nl ++ "/**" ++ nl))
        ++ (" * This class is generated by the JSON to Java Class Generator." ++ nl))
       ++ (" */" ++ nl))
      ++ ("public class " ++ class_name ++ " {" ++ nl))
     ++ join (map (fun item => field_declaration access_modifier (fst item) (snd item))
                class_fields))
    ++ (if generate_getters || generate_setters
        then join (map (fun item => accessors generate_getters generate_setters
                                      (fst item) (snd item)) class_fields)
        else EmptyString)
    ++ ("}" ++ nl).
Proof.
  unfold generate_java_class. cbv zeta.
  rewrite (fold_left_append _ (fun imp : string => imp ++ nl)).
  rewrite (fold_left_append _
             (fun item : string * field_info =>
                field_declaration access_modifier (fst item) (snd item))).
  destruct (generate_getters || generate_setters).
  - rewrite (fold_left_append _
               (fun item : string * field_info =>
                  accessors generate_getters generate_setters
                    (fst item) (snd item))).
    rewrite append_assoc. reflexivity.
  - reflexivity.
Qed.

(** X15. The import lines of a generated class are sorted and free of
    repetition, and they are exactly: the [JsonProperty] import, always;
    the [List] import when some field type starts with [List<]; and each
    [java.time] import when some field has exactly that type, so a field
    of type [List<LocalDate>] alone brings no [LocalDate] import.  Every
    one of them is a line of the generated text. *)
Theorem emitted_imports (class_name : string) (class_fields : fields)
  (access_modifier : option string) (package_name : string)
  (generate_getters generate_setters : bool) :
  Sorted (fun a b => String.leb a b = true)
    (sorted (collect_imports class_fields)) /\
  NoDup (sorted (collect_imports class_fields)) /\
  (forall y,
      In y (sorted (collect_imports class_fields)) <->
      y = import_json_property \/
      exists f info, In (f, info) class_fields /\ triggers info y) /\
  (In import_date (sorted (collect_imports class_fields)) <->
   exists f info, In (f, info) class_fields /\ type info = "LocalDate") /\
  (forall y,
      In y (sorted (collect_imports class_fields)) ->
      contains (y ++ nl)
        (generate_java_class class_name class_fields access_modifier
           package_name generate_getters generate_setters)).
Proof.
  assert (Hin : forall y,
             In y (sorted (collect_imports class_fields)) <->
             y = import_json_property \/
             exists f info, In (f, info) class_fields /\ triggers info y).
  { intro y. rewrite in_sorted. unfold collect_imports.
    rewrite in_set_add, in_fold_field_imports. simpl. tauto. }
  split; [apply Sorted_sorted |].
  split.
  { apply NoDup_sorted. unfold collect_imports.
    apply NoDup_set_add, NoDup_fold_field_imports. constructor. }
  split; [exact Hin |].
  split.
  { rewrite Hin. split.
    - intros [H | [f [info [Hf Ht]]]]; [discriminate H |].
      exists f, info. split; [exact Hf |].
      destruct Ht as [[H _] | [[_ H] | [[H _] | [H _]]]];
        [discriminate H | exact H | discriminate H | discriminate H].
    - intros [f [info [Hf Ht]]]. right. exists f, info. split; [exact Hf |].
      right; left; split; [reflexivity | exact Ht]. }
  intros y Hy. rewrite generate_java_class_layout.
  do 6 apply contains_append_r. apply contains_append_l.
  exact (contains_join string (fun imp => imp ++ nl) _ y Hy).
Qed.

(** X16. Every field of the class is declared in the generated text: its
    [@JsonProperty] line carrying the original JSON key, directly followed
    by its private declaration.  Without an access modifier, or with the
    empty one, the annotation has the value only; otherwise it names the
    modifier first. *)
Theorem every_field_is_declared (class_name : string) (class_fields : fields)
  (access_modifier : option string) (package_name : string)
  (generate_getters generate_setters : bool)
  (f : string) (info : field_info) :
  In (f, info) class_fields ->
  (access_modifier = None \/ access_modifier = Some EmptyString ->
   contains
     (("    @JsonProperty(value = " ++ dquote ++ original_name info ++ dquote
         ++ ")" ++ nl)
      ++ "    private " ++ type info ++ " " ++ f ++ ";" ++ nl ++ nl)
     (generate_java_class class_name class_fields access_modifier
        package_name generate_getters generate_setters)) /\
  (forall a m,
      access_modifier = Some (String a m) ->
      contains
        (("    @JsonProperty(access = JsonProperty.Access." ++ String a m
            ++ ", value = " ++ dquote ++ original_name info ++ dquote
            ++ ")" ++ nl)
         ++ "    private " ++ type info ++ " " ++ f ++ ";" ++ nl ++ nl)
        (generate_java_class class_name class_fields access_modifier
           package_name generate_getters generate_setters)).
Proof.
  intro Hin.
  assert (H : contains (field_declaration access_modifier f info)
                (generate_java_class class_name class_fields access_modifier
                   package_name generate_getters generate_setters)).
  { rewrite generate_java_class_layout.
    apply contains_append_r, contains_append_l.
    exact (contains_join (string * field_info)
             (fun item => field_declaration access_modifier (fst item) (snd item))
             class_fields (f, info) Hin). }
  split.
  - intros [-> | ->]; exact H.
  - intros a m ->. exact H.
Qed.

Lemma every_field_is_declared_witness :
  contains
    (("    @JsonProperty(value = " ++ dquote ++ "user_name" ++ dquote
        ++ ")" ++ nl)
     ++ "    private String userName;" ++ nl ++ nl)
    (generate_java_class "Root"
       [("userName", {| type := "String"; original_name := "user_name" |})]
       None "com.example.model" false false).
Proof.
  exact (proj1 (every_field_is_declared "Root"
                  [("userName", {| type := "String"; original_name := "user_name" |})]
                  None "com.example.model" false false
                  "userName" {| type := "String"; original_name := "user_name" |}
                  (or_introl eq_refl))
               (or_introl eq_refl)).
Defined.

Lemma accessors_split (generate_getters generate_setters : bool)
  (f : string) (info : field_info) :
  accessors generate_getters generate_setters f info
  = (if generate_getters then getter f info else EmptyString)
    ++ (if generate_setters then setter f info else EmptyString).
Proof.
  unfold accessors. cbv zeta.
  destruct generate_getters, generate_setters; cbn [append];
    try reflexivity.
  symmetry; apply append_empty.
Qed.

Lemma contains_left (p q t : string) : contains (p ++ q) t -> contains p t.
Proof.
  intros [b [a ->]]. exists b, (q ++ a). rewrite !append_assoc. reflexivity.
Qed.

Lemma contains_right (p q t : string) : contains (p ++ q) t -> contains q t.
Proof.
  intros [b [a ->]]. exists (b ++ p), a. rewrite !append_assoc. reflexivity.
Qed.

(** X17. Accessors follow the two flags: with getters requested every
    field has its getter in the text, with setters requested its setter,
    with both the setter right after the getter; with neither, the class
    body is the field declarations and nothing else. *)
Theorem accessors_follow_flags (class_name : string) (class_fields : fields)
  (access_modifier : option string) (package_name : string)
  (generate_getters generate_setters : bool)
  (f : string) (info : field_info) :
  In (f, info) class_fields ->
  (generate_getters = true ->
   contains (getter f info)
     (generate_java_class class_name class_fields access_modifier
        package_name generate_getters generate_setters)) /\
  (generate_setters = true ->
   contains (setter f info)
     (generate_java_class class_name class_fields access_modifier
        package_name generate_getters generate_setters)) /\
  (generate_getters = true -> generate_setters = true ->
   contains (getter f info ++ setter f info)
     (generate_java_class class_name class_fields access_modifier
        package_name generate_getters generate_setters)) /\
  (generate_getters = false -> generate_setters = false ->
   exists head,
     generate_java_class class_name class_fields access_modifier
       package_name generate_getters generate_setters
     = (head ++ ("public class " ++ class_name ++ " {" ++ nl))
       ++ join (map (fun item =>
                       field_declaration access_modifier (fst item) (snd item))
                  class_fields)
       ++ ("}" ++ nl)).
Proof.
  intro Hin.
  assert (H : generate_getters || generate_setters = true ->
              contains (accessors generate_getters generate_setters f info)
                (generate_java_class class_name class_fields access_modifier
                   package_name generate_getters generate_setters)).
  { intro Hflag. rewrite generate_java_class_layout, Hflag.
    apply contains_append_l, contains_append_r.
    exact (contains_join (string * field_info)
             (fun item => accessors generate_getters generate_setters
                            (fst item) (snd item))
             class_fields (f, info) Hin). }
  rewrite accessors_split in H.
  split; [| split; [| split]].
  - intros ->. apply (contains_left _ _ _ (H eq_refl)).
  - intros ->. rewrite orb_true_r in H. apply (contains_right _ _ _ (H eq_refl)).
  - intros -> ->. exact (H eq_refl).
  - intros -> ->. rewrite generate_java_class_layout. cbn [orb].
    eexists. rewrite append_assoc. reflexivity.
Qed.

Lemma accessors_follow_flags_witness :
  contains
    (getter "age" {| type := "Integer"; original_name := "age" |})
    (generate_java_class "Root"
       [("age", {| type := "Integer"; original_name := "age" |})]
       None "com.example.model" true false).
Proof.
  exact (proj1 (accessors_follow_flags "Root"
                  [("age", {| type := "Integer"; original_name := "age" |})]
                  None "com.example.model" true false
                  "age" {| type := "Integer"; original_name := "age" |}
                  (or_introl eq_refl))
               eq_refl).
Defined.

Lemma lower_not_upper (a : ascii) : is_upper (lower a) = false.
Proof.
  destruct a as [[] [] [] [] [] [] [] []]; vm_compute; reflexivity.
Qed.

Lemma lower_all_no_upper (x : ascii) (s : string) :
  occurs x (lower_all s) = true -> is_upper x = false.
Proof.
  induction s as [| a r IH]; simpl; [discriminate |].
  intro H. apply orb_true_iff in H as [H | H]; [| exact (IH H)].
  apply Ascii.eqb_eq in H. subst x. apply lower_not_upper.
Qed.

Lemma contains_trans (p q t : string) :
  contains p q -> contains q t -> contains p t.
Proof.
  intros [b [a ->]] [b' [a' ->]]. exists (b' ++ b), (a ++ a').
  rewrite !append_assoc. reflexivity.
Qed.

Lemma getter_name (f : string) (info : field_info) :
  contains ("get" ++ capitalize f ++ "()") (getter f info).
Proof.
  unfold getter. cbv zeta.
  exists ("    public " ++ type info ++ " "),
         (" {" ++ nl ++ ("        return " ++ f ++ ";" ++ nl) ++ ("    }" ++ nl ++ nl)).
  rewrite !append_assoc. reflexivity.
Qed.

Lemma setter_name (f : string) (info : field_info) :
  contains ("set" ++ capitalize f ++ "(") (setter f info).
Proof.
  unfold setter. cbv zeta.
  exists "    public void ",
         (type info ++ " " ++ f ++ ") {" ++ nl
          ++ ("        this." ++ f ++ " = " ++ f ++ ";" ++ nl)
          ++ ("    }" ++ nl ++ nl)).
  rewrite !append_assoc. reflexivity.
Qed.

(** X18. For a field with an ASCII name, the accessors in the generated
    text are named [get] and [set] followed by the field name with its
    first character upper-cased and all the others lower-cased: no
    upper-case letter of a camel-case field name survives behind the first
    position. *)
Theorem accessor_names_are_capitalized (class_name : string)
  (class_fields : fields) (access_modifier : option string)
  (package_name : string) (generate_getters generate_setters : bool)
  (c : ascii) (r : string) (info : field_info) :
  In (String c r, info) class_fields ->
  isascii (String c r) = true ->
  (generate_getters = true ->
   contains ("get" ++ String (upper c) (lower_all r) ++ "()")
     (generate_java_class class_name class_fields access_modifier
        package_name generate_getters generate_setters)) /\
  (generate_setters = true ->
   contains ("set" ++ String (upper c) (lower_all r) ++ "(")
     (generate_java_class class_name class_fields access_modifier
        package_name generate_getters generate_setters)) /\
  (forall x, occurs x (lower_all r) = true -> is_upper x = false).
Proof.
  intros Hin _.
  assert (H : generate_getters || generate_setters = true ->
              contains (accessors generate_getters generate_setters
                          (String c r) info)
                (generate_java_class class_name class_fields access_modifier
                   package_name generate_getters generate_setters)).
  { intro Hflag. rewrite generate_java_class_layout, Hflag.
    apply contains_append_l, contains_append_r.
    exact (contains_join (string * field_info)
             (fun item => accessors generate_getters generate_setters
                            (fst item) (snd item))
             class_fields (String c r, info) Hin). }
  rewrite accessors_split in H.
  split; [| split].
  - intros ->. apply (contains_trans _ (getter (String c r) info)).
    + exact (getter_name (String c r) info).
    + exact (contains_left _ _ _ (H eq_refl)).
  - intros ->. rewrite orb_true_r in H.
    apply (contains_trans _ (setter (String c r) info)).
    + exact (setter_name (String c r) info).
    + exact (contains_right _ _ _ (H eq_refl)).
  - intros x Hx. exact (lower_all_no_upper x r Hx).
Qed.

Lemma accessor_names_are_capitalized_witness :
  contains "getUsername()"
    (generate_java_class "Root"
       [("userName", {| type := "String"; original_name := "user_name" |})]
       None "com.example.model" true false).
Proof.
  exact (proj1 (accessor_names_are_capitalized "Root"
                  [("userName", {| type := "String"; original_name := "user_name" |})]
                  None "com.example.model" true false
                  "u"%char "serName"
                  {| type := "String"; original_name := "user_name" |}
                  (or_introl eq_refl) eq_refl)
               eq_refl).
Defined.
